(** * The messaging service of pedis (message/messaging_service.cc)

    A shallow embedding of the connection manager and of the send pipeline:
    the per-class client cache, the listeners, the dropped-message counters,
    the send primitives with their completion handlers, the retry loop and
    the shutdown sequence.

    Objects that the C++ code reaches through pointers
    ([shared_ptr<rpc_protocol_client_wrapper>]) live in an explicit heap and
    are named by their index in it, so that the cache and the in-flight
    requests share one object, as they do in the source. *)

From Stdlib Require Import ZArith Bool List Lia.
From stdpp Require Import base option list gmap fin_maps.

Local Open Scope Z_scope.

(** ** Verbs *)

(** Modelled from the spec: the enum [messaging_verb] is declared in
    message/messaging_service.hh, which is not part of the sources at hand.
    The six verbs named by messaging_service.cc are listed; [OTHER_VERB n]
    stands for the remaining members of the enum (read, write, schema and
    streaming verbs). *)
Inductive messaging_verb : Type :=
  | CLIENT_ID
  | GOSSIP_DIGEST_SYN
  | GOSSIP_DIGEST_ACK
  | GOSSIP_DIGEST_ACK2
  | GOSSIP_SHUTDOWN
  | GOSSIP_ECHO
  | OTHER_VERB (n : N).

#[global] Instance messaging_verb_eq_dec : EqDecision messaging_verb.
Proof. solve_decision. Defined.

Definition verb_eqb (a b : messaging_verb) : bool := bool_decide (a = b).

(** [get_rpc_client_idx]: the index of the client table a verb is sent on. *)
Definition get_rpc_client_idx (verb : messaging_verb) : nat :=
  let idx := 0%nat in
  if verb_eqb verb GOSSIP_DIGEST_SYN
     || verb_eqb verb GOSSIP_DIGEST_ACK2
     || verb_eqb verb GOSSIP_SHUTDOWN
     || verb_eqb verb GOSSIP_ECHO
  then 1%nat
  else idx.

(** ** Addresses *)

(** [gms::inet_address] is a raw 32-bit address. *)
Definition inet_address := Z.

Record ipv4_addr : Type := mk_ipv4_addr {
  ip : Z;      (* uint32_t *)
  a_port : Z   (* uint16_t *)
}.

Record msg_addr : Type := mk_msg_addr {
  addr : inet_address;
  cpu_id : Z   (* uint32_t *)
}.

(** [operator==] on [msg_addr] ignores [cpu_id]; so does [msg_addr::hash]. *)
Definition msg_addr_eqb (x y : msg_addr) : bool := Z.eqb (addr x) (addr y).

(** ** Configuration and objects *)

(** Modelled from the spec: the enums [encrypt_what] and [compress_what]
    are declared in message/messaging_service.hh. The source names
    [encrypt_what::none], [compress_what::none] and [compress_what::dc];
    the other members are those the specification lists
    ([{none, all, dc, rack}] and [{none, dc, all}]). *)
Inductive encrypt_what : Type :=
  | encrypt_none | encrypt_all | encrypt_dc | encrypt_rack.

Inductive compress_what : Type :=
  | compress_none | compress_dc | compress_all.

#[global] Instance encrypt_what_eq_dec : EqDecision encrypt_what.
Proof. solve_decision. Defined.

#[global] Instance compress_what_eq_dec : EqDecision compress_what.
Proof. solve_decision. Defined.

(** [::shared_ptr<seastar::tls::server_credentials>]: null, or the
    credentials object built by the constructor. *)
Definition credentials_ptr := option N.

Record tcp_keepalive_params : Type := mk_keepalive {
  ka_idle : Z; ka_interval : Z; ka_count : Z
}.

Record client_options : Type := mk_client_options {
  keepalive : option tcp_keepalive_params;
  compressor_factory : bool  (* the pointer is set *)
}.

(** The object behind a [shared_ptr<rpc_protocol_client_wrapper>].
    [c_tls = Some c] when the client was built over [seastar::tls::socket(c)].
    [c_error] is what [error()] answers; the transport sets it. *)
Record rpc_protocol_client_wrapper : Type := mk_client {
  c_opts : client_options;
  c_tls : option credentials_ptr;
  c_remote : ipv4_addr;
  c_local : ipv4_addr;
  c_error : bool
}.

(** A listener. [s_tls = Some c] when it listens through
    [seastar::tls::listen(c, ...)]. The resource limits handed to the plain
    listeners are not modelled. *)
Record rpc_protocol_server_wrapper : Type := mk_server {
  s_compressor_factory : bool;
  s_addr : ipv4_addr;
  s_tls : option credentials_ptr
}.

(** [shard_info] holds the shared pointer to the client: a heap index. *)
Record shard_info : Type := mk_shard_info { rpc_client : nat }.

(** What [stop()] can be called on: the listener in a slot of [_server]
    ([tls = false]) or [_server_tls] ([tls = true]), or a client object. *)
Inductive stoppable : Type :=
  | server_stop (tls : bool) (slot : nat)
  | client_stop (h : nat).

#[global] Instance stoppable_eq_dec : EqDecision stoppable.
Proof. solve_decision. Defined.

(** A [future<>] returned by a stop operation is represented by the stop
    calls whose completion it waits for; a ready future waits for none. *)
Definition future := list stoppable.

Definition make_ready_future : future := [].

(** [clients_map]: an [unordered_map<msg_addr, shard_info, msg_addr::hash>].
    Keys are compared and hashed by address alone, so the table is keyed by
    the address and keeps the [msg_addr] first inserted beside the value. *)
Abbreviation clients_map := (gmap Z (msg_addr * shard_info)).

(** ** The service *)

(** The members that messaging_service.cc reads and writes. [_server],
    [_server_tls] and [_clients] are arrays; their length, 2, is the one
    the specification gives (slots 0 and 1, verb classes 0 and 1). *)
Record messaging_service : Type := mk_ms {
  _listen_address : inet_address;
  _port : Z;
  _ssl_port : Z;
  _encrypt_what : encrypt_what;
  _compress_what : compress_what;
  _should_listen_to_broadcast_address : bool;
  _credentials : credentials_ptr;
  _server : list (option rpc_protocol_server_wrapper);      (* array of 2 *)
  _server_tls : list (option rpc_protocol_server_wrapper);  (* array of 2 *)
  _clients : list clients_map;                              (* array of 2 *)
  _dropped_messages : messaging_verb -> Z;                  (* uint64_t each *)
  _stopping : bool;
  _preferred_ip_cache : gmap Z inet_address;
  (* the client objects the shared pointers refer to *)
  heap : list rpc_protocol_client_wrapper;
  (* every stop() invoked so far, latest first *)
  stop_calls : list stoppable
}.

Definition set_server (v : list (option rpc_protocol_server_wrapper))
    (ms : messaging_service) : messaging_service :=
  mk_ms (_listen_address ms) (_port ms) (_ssl_port ms) (_encrypt_what ms)
        (_compress_what ms) (_should_listen_to_broadcast_address ms)
        (_credentials ms) v (_server_tls ms) (_clients ms)
        (_dropped_messages ms) (_stopping ms) (_preferred_ip_cache ms)
        (heap ms) (stop_calls ms).

Definition set_server_tls (v : list (option rpc_protocol_server_wrapper))
    (ms : messaging_service) : messaging_service :=
  mk_ms (_listen_address ms) (_port ms) (_ssl_port ms) (_encrypt_what ms)
        (_compress_what ms) (_should_listen_to_broadcast_address ms)
        (_credentials ms) (_server ms) v (_clients ms)
        (_dropped_messages ms) (_stopping ms) (_preferred_ip_cache ms)
        (heap ms) (stop_calls ms).

Definition set_clients (v : list clients_map)
    (ms : messaging_service) : messaging_service :=
  mk_ms (_listen_address ms) (_port ms) (_ssl_port ms) (_encrypt_what ms)
        (_compress_what ms) (_should_listen_to_broadcast_address ms)
        (_credentials ms) (_server ms) (_server_tls ms) v
        (_dropped_messages ms) (_stopping ms) (_preferred_ip_cache ms)
        (heap ms) (stop_calls ms).

Definition set_dropped_messages (v : messaging_verb -> Z)
    (ms : messaging_service) : messaging_service :=
  mk_ms (_listen_address ms) (_port ms) (_ssl_port ms) (_encrypt_what ms)
        (_compress_what ms) (_should_listen_to_broadcast_address ms)
        (_credentials ms) (_server ms) (_server_tls ms) (_clients ms)
        v (_stopping ms) (_preferred_ip_cache ms)
        (heap ms) (stop_calls ms).

Definition set_stopping (v : bool)
    (ms : messaging_service) : messaging_service :=
  mk_ms (_listen_address ms) (_port ms) (_ssl_port ms) (_encrypt_what ms)
        (_compress_what ms) (_should_listen_to_broadcast_address ms)
        (_credentials ms) (_server ms) (_server_tls ms) (_clients ms)
        (_dropped_messages ms) v (_preferred_ip_cache ms)
        (heap ms) (stop_calls ms).

Definition set_preferred_ip_cache (v : gmap Z inet_address)
    (ms : messaging_service) : messaging_service :=
  mk_ms (_listen_address ms) (_port ms) (_ssl_port ms) (_encrypt_what ms)
        (_compress_what ms) (_should_listen_to_broadcast_address ms)
        (_credentials ms) (_server ms) (_server_tls ms) (_clients ms)
        (_dropped_messages ms) (_stopping ms) v
        (heap ms) (stop_calls ms).

Definition set_heap (v : list rpc_protocol_client_wrapper)
    (ms : messaging_service) : messaging_service :=
  mk_ms (_listen_address ms) (_port ms) (_ssl_port ms) (_encrypt_what ms)
        (_compress_what ms) (_should_listen_to_broadcast_address ms)
        (_credentials ms) (_server ms) (_server_tls ms) (_clients ms)
        (_dropped_messages ms) (_stopping ms) (_preferred_ip_cache ms)
        v (stop_calls ms).

Definition set_stop_calls (v : list stoppable)
    (ms : messaging_service) : messaging_service :=
  mk_ms (_listen_address ms) (_port ms) (_ssl_port ms) (_encrypt_what ms)
        (_compress_what ms) (_should_listen_to_broadcast_address ms)
        (_credentials ms) (_server ms) (_server_tls ms) (_clients ms)
        (_dropped_messages ms) (_stopping ms) (_preferred_ip_cache ms)
        (heap ms) v.

(** [x.stop()]: the call is recorded; the returned future waits for it. *)
Definition call_stop (x : stoppable) (ms : messaging_service)
    : messaging_service * future :=
  (set_stop_calls (x :: stop_calls ms) ms, [x]).

(** ** Counters *)

Definition uint64_max : Z := 2 ^ 64 - 1.

(** [increment_dropped_messages]: [_dropped_messages[verb]++] on a
    [uint64_t]. *)
Definition increment_dropped_messages (verb : messaging_verb)
    (ms : messaging_service) : messaging_service :=
  set_dropped_messages
    (fun v => if verb_eqb v verb
              then (_dropped_messages ms v + 1) mod 2 ^ 64
              else _dropped_messages ms v) ms.

Definition get_dropped_messages (ms : messaging_service)
    (verb : messaging_verb) : Z :=
  _dropped_messages ms verb.

(** ** Lifecycle: construction, listening, shutdown *)

Definition slot_bound (slots : list (option rpc_protocol_server_wrapper))
    (i : nat) : bool :=
  match slots !! i with
  | Some (Some _) => true
  | _ => false
  end.

(** [start_listen]. [bc] is [utils::fb_utilities::get_broadcast_address()].
    The log lines written on cpu 0 are left out. *)
Definition start_listen (bc : inet_address) (ms : messaging_service)
    : messaging_service :=
  let listen_to_bc :=
    _should_listen_to_broadcast_address ms
    && negb (Z.eqb (_listen_address ms) bc) in
  let so := negb (bool_decide (_compress_what ms = compress_none)) in
  let ms1 :=
    if negb (slot_bound (_server ms) 0) then
      let listen (a : inet_address) :=
        Some (mk_server so (mk_ipv4_addr a (_port ms)) None) in
      let ms' := set_server (<[0%nat := listen (_listen_address ms)]> (_server ms)) ms in
      if listen_to_bc
      then set_server (<[1%nat := listen bc]> (_server ms')) ms'
      else ms'
    else ms in
  if negb (slot_bound (_server_tls ms1) 0) then
    let listen (a : inet_address) :=
      if bool_decide (_encrypt_what ms1 = encrypt_none) then None
      else Some (mk_server so (mk_ipv4_addr a (_ssl_port ms1))
                           (Some (_credentials ms1))) in
    let ms' :=
      set_server_tls (<[0%nat := listen (_listen_address ms1)]> (_server_tls ms1)) ms1 in
    if listen_to_bc
    then set_server_tls (<[1%nat := listen bc]> (_server_tls ms')) ms'
    else ms'
  else ms1.

(** The eight-argument constructor. [credentials] is the outcome of
    [credentials ? credentials->build_server_credentials() : nullptr]. *)
Definition new_messaging_service (bc : inet_address)
    (ip : inet_address) (port : Z) (ew : encrypt_what) (cw : compress_what)
    (ssl_port : Z) (credentials : credentials_ptr) (sltba listen_now : bool)
    : messaging_service :=
  let ms :=
    mk_ms ip port ssl_port ew cw sltba credentials
          [None; None] [None; None] [∅; ∅] (fun _ => 0) false ∅ [] [] in
  if listen_now then start_listen bc ms else ms.

(** The three-argument constructor delegates to the one above. *)
Definition new_messaging_service_plain (bc : inet_address)
    (ip : inet_address) (port : Z) (listen_now : bool) : messaging_service :=
  new_messaging_service bc ip port encrypt_none compress_none 0 None false
                        listen_now.

(** The loop shared by [stop_tls_server] and [stop_nontls_server]:
    [for (auto&& s : slots) { if (s) { return s->stop(); } }
     return make_ready_future<>();] *)
Fixpoint stop_server_loop (tls : bool) (i : nat)
    (slots : list (option rpc_protocol_server_wrapper))
    (ms : messaging_service) : messaging_service * future :=
  match slots with
  | [] => (ms, make_ready_future)
  | s :: rest =>
      match s with
      | Some _ => call_stop (server_stop tls i) ms
      | None => stop_server_loop tls (S i) rest ms
      end
  end.

Definition stop_tls_server (ms : messaging_service)
    : messaging_service * future :=
  stop_server_loop true 0 (_server_tls ms) ms.

Definition stop_nontls_server (ms : messaging_service)
    : messaging_service * future :=
  stop_server_loop false 0 (_server ms) ms.

(** [parallel_for_each]: the function is started on every element; the
    result waits for all the futures it returned. *)
Fixpoint parallel_for_each {A : Type}
    (f : A -> messaging_service -> messaging_service * future)
    (l : list A) (ms : messaging_service) : messaging_service * future :=
  match l with
  | [] => (ms, make_ready_future)
  | a :: l' =>
      let '(ms1, f1) := f a ms in
      let '(ms2, f2) := parallel_for_each f l' ms1 in
      (ms2, f1 ++ f2)
  end.

Definition stop_client (ms : messaging_service)
    : messaging_service * future :=
  parallel_for_each
    (fun m : clients_map =>
       parallel_for_each
         (fun c : Z * (msg_addr * shard_info) =>
            call_stop (client_stop (rpc_client (snd (snd c)))))
         (map_to_list m))
    (_clients ms) ms.

(** [when_all(...).discard_result()]: waits for every argument. *)
Definition when_all (fs : list future) : future := concat fs.

(** [stop]. The three arguments of [when_all] are evaluated here from left
    to right; C++ leaves their order open, which only permutes [stop_calls]. *)
Definition stop (ms : messaging_service) : messaging_service * future :=
  let ms0 := set_stopping true ms in
  let '(ms1, f1) := stop_nontls_server ms0 in
  let '(ms2, f2) := stop_tls_server ms1 in
  let '(ms3, f3) := stop_client ms2 in
  (ms3, when_all [f1; f2; f3]).

(** ** The client cache *)

(** [_clients[idx]] *)
Definition clients_at (ms : messaging_service) (idx : nat) : clients_map :=
  default ∅ (_clients ms !! idx).

(** [c->error()] for the client object at heap index [h]. *)
Definition client_error (ms : messaging_service) (h : nat) : bool :=
  match heap ms !! h with
  | Some c => c_error c
  | None => false
  end.

(** [remove_rpc_client_one(clients, id, dead_only)]; the table passed by
    reference is named by its index in [_clients]. *)
Definition remove_rpc_client_one (idx : nat) (id : msg_addr)
    (dead_only : bool) (ms : messaging_service) : messaging_service :=
  if _stopping ms then ms
  else
    match clients_at ms idx !! addr id with
    | Some it =>
        if negb dead_only || client_error ms (rpc_client (snd it)) then
          let client := rpc_client (snd it) in
          let ms1 :=
            set_clients (<[idx := delete (addr id) (clients_at ms idx)]> (_clients ms)) ms in
          (* client->stop().finally(...).discard_result() *)
          fst (call_stop (client_stop client) ms1)
        else ms
    | None => ms
    end.

Definition remove_error_rpc_client (verb : messaging_verb) (id : msg_addr)
    (ms : messaging_service) : messaging_service :=
  remove_rpc_client_one (get_rpc_client_idx verb) id true ms.

Definition remove_rpc_client (id : msg_addr) (ms : messaging_service)
    : messaging_service :=
  foldl (fun acc idx => remove_rpc_client_one idx id false acc) ms
        (seq 0 (length (_clients ms))).

(** [get_preferred_ip]: the lookup in [_preferred_ip_cache] and the
    datacenter test are commented out in the source; the body that remains
    returns its argument. *)
Definition get_preferred_ip (ms : messaging_service) (ep : inet_address)
    : inet_address :=
  ep.

Definition cache_preferred_ip (ep ip_ : inet_address)
    (ms : messaging_service) : messaging_service :=
  set_preferred_ip_cache (<[ep := ip_]> (_preferred_ip_cache ms)) ms.

(** The lambda [must_encrypt] of [get_rpc_client]: its policy tests are
    commented out in the source, [return false] is what remains. *)
Definition must_encrypt (ms : messaging_service) (id : msg_addr) : bool :=
  false.

(** The lambda [must_compress] of [get_rpc_client]: the body of the
    [compress_what::dc] branch is commented out, so that branch falls
    through to [return true]. *)
Definition must_compress (ms : messaging_service) (id : msg_addr) : bool :=
  if bool_decide (_compress_what ms = compress_none) then false
  else
    if bool_decide (_compress_what ms = compress_dc) then true
    else true.

(** The client object [get_rpc_client] builds when the cache has none. *)
Definition make_client (ms : messaging_service) (id : msg_addr)
    : rpc_protocol_client_wrapper :=
  let must_encrypt := must_encrypt ms id in
  let must_compress := must_compress ms id in
  let remote_addr :=
    mk_ipv4_addr (get_preferred_ip ms (addr id))
                 (if must_encrypt then _ssl_port ms else _port ms) in
  let local_addr := mk_ipv4_addr (_listen_address ms) 0 in
  let opts :=
    mk_client_options (Some (mk_keepalive 60 60 10))
                      (if must_compress then true else false) in
  if must_encrypt
  then mk_client opts (Some (_credentials ms)) remote_addr local_addr false
  else mk_client opts None remote_addr local_addr false.

(** [get_rpc_client]. [None] is the failure of [assert(!_stopping)].
    [emplace] inserts only when the key is absent and answers the entry
    that is in the table afterwards. *)
Definition get_rpc_client (verb : messaging_verb) (id : msg_addr)
    (ms : messaging_service) : option (messaging_service * nat) :=
  if _stopping ms then None
  else
    let idx := get_rpc_client_idx verb in
    let found :=
      match clients_at ms idx !! addr id with
      | Some it =>
          let c := rpc_client (snd it) in
          if negb (client_error ms c) then inl c
          else inr (remove_error_rpc_client verb id ms)
      | None => inr ms
      end in
    match found with
    | inl c => Some (ms, c)
    | inr ms1 =>
        let client := length (heap ms1) in
        let ms2 := set_heap (heap ms1 ++ [make_client ms1 id]) ms1 in
        match clients_at ms2 idx !! addr id with
        | Some it => Some (ms2, rpc_client (snd it))
        | None =>
            Some (set_clients
                    (<[idx := <[addr id := (id, mk_shard_info client)]> (clients_at ms2 idx)]>
                       (_clients ms2)) ms2,
                  client)
        end
    end.

(** ** The send pipeline *)

(** The exceptions a send future can carry: [rpc::closed_error],
    [rpc::timeout_error], the exception of an aborted sleep, and any other
    exception (for instance one thrown by the remote handler). *)
Inductive rpc_error : Type :=
  | closed_error
  | timeout_error
  | sleep_aborted
  | other_error (n : N).

#[global] Instance rpc_error_eq_dec : EqDecision rpc_error.
Proof. solve_decision. Defined.

(** A resolved future with value type [R]. *)
Inductive future_result (R : Type) : Type :=
  | Ok (r : R)
  | Failed (e : rpc_error).

Arguments Ok {R} r.
Arguments Failed {R} e.

Definition failed {R : Type} (f : future_result R) : bool :=
  match f with
  | Ok _ => false
  | Failed _ => true
  end.

(** What the rest of the program may do while a request is in flight or the
    retry loop sleeps: the transport flags a client as broken, [stop()] is
    called, a client is dropped, a preferred address is recorded. *)
Inductive env_action : Type :=
  | env_transport_error (h : nat)
  | env_stop
  | env_remove_rpc_client (id : msg_addr)
  | env_cache_preferred_ip (ep ip_ : inet_address).

Definition set_client_error (h : nat) (ms : messaging_service)
    : messaging_service :=
  match heap ms !! h with
  | Some c =>
      set_heap (<[h := mk_client (c_opts c) (c_tls c) (c_remote c) (c_local c) true]>
                  (heap ms)) ms
  | None => ms
  end.

Definition run_env_action (a : env_action) (ms : messaging_service)
    : messaging_service :=
  match a with
  | env_transport_error h => set_client_error h ms
  | env_stop => fst (stop ms)
  | env_remove_rpc_client id => remove_rpc_client id ms
  | env_cache_preferred_ip ep ip_ => cache_preferred_ip ep ip_ ms
  end.

Definition run_env (l : list env_action) (ms : messaging_service)
    : messaging_service :=
  foldl (fun acc a => run_env_action a acc) ms l.

(** What becomes of a request once it has been handed to the transport:
    the actions that run before its future resolves, and how it resolves. *)
Record wire (R : Type) : Type := mk_wire {
  in_flight : list env_action;
  reply : future_result R
}.

Arguments mk_wire {R} in_flight reply.
Arguments in_flight {R} w.
Arguments reply {R} w.

(** The part of [send_message] that runs before the request is handed to
    the transport. *)
Inductive dispatch : Type :=
  | PreFailed (e : rpc_error)   (* make_exception_future(e) was returned *)
  | Dispatched (c : nat)        (* the request went out on client [c] *)
  | Aborted.                    (* an assertion failed *)

Definition send_message_begin (verb : messaging_verb) (id : msg_addr)
    (ms : messaging_service) : messaging_service * dispatch :=
  if _stopping ms then (ms, PreFailed closed_error)
  else
    match get_rpc_client verb id ms with
    | Some (ms', rpc_client_ptr) => (ms', Dispatched rpc_client_ptr)
    | None => (ms, Aborted)
    end.

(** The continuation [send_message] attaches with [then_wrapped]. *)
Definition send_message_then {R : Type} (verb : messaging_verb)
    (id : msg_addr) (f : future_result R) (ms : messaging_service)
    : messaging_service * future_result R :=
  match f with
  | Ok r => (ms, Ok r)
  | Failed e =>
      let ms1 := increment_dropped_messages verb ms in
      match e with
      | closed_error =>
          (* This is a transport error *)
          (remove_error_rpc_client verb id ms1, Failed closed_error)
      | _ => (ms1, Failed e)
      end
  end.

(** [send_message], run to the resolution of the future it returns.
    [None] stands for an aborted process. *)
Definition send_message {R : Type} (verb : messaging_verb) (id : msg_addr)
    (w : wire R) (ms : messaging_service)
    : option (messaging_service * future_result R) :=
  match send_message_begin verb id ms with
  | (ms1, PreFailed e) => Some (ms1, Failed e)
  | (ms1, Dispatched _) =>
      Some (send_message_then verb id (reply w) (run_env (in_flight w) ms1))
  | (_, Aborted) => None
  end.

(** [send_message_timeout] repeats the code of [send_message]; the timeout
    is handed to the transport, whose answer is [w]. *)
Definition send_message_timeout_begin (verb : messaging_verb) (id : msg_addr)
    (ms : messaging_service) : messaging_service * dispatch :=
  if _stopping ms then (ms, PreFailed closed_error)
  else
    match get_rpc_client verb id ms with
    | Some (ms', rpc_client_ptr) => (ms', Dispatched rpc_client_ptr)
    | None => (ms, Aborted)
    end.

Definition send_message_timeout_then {R : Type} (verb : messaging_verb)
    (id : msg_addr) (f : future_result R) (ms : messaging_service)
    : messaging_service * future_result R :=
  match f with
  | Ok r => (ms, Ok r)
  | Failed e =>
      let ms1 := increment_dropped_messages verb ms in
      match e with
      | closed_error =>
          (remove_error_rpc_client verb id ms1, Failed closed_error)
      | _ => (ms1, Failed e)
      end
  end.

Definition send_message_timeout {R : Type} (verb : messaging_verb)
    (id : msg_addr) (timeout : Z) (w : wire R) (ms : messaging_service)
    : option (messaging_service * future_result R) :=
  match send_message_timeout_begin verb id ms with
  | (ms1, PreFailed e) => Some (ms1, Failed e)
  | (ms1, Dispatched _) =>
      Some (send_message_timeout_then verb id (reply w)
              (run_env (in_flight w) ms1))
  | (_, Aborted) => None
  end.

Definition send_message_oneway (verb : messaging_verb) (id : msg_addr)
    (w : wire unit) (ms : messaging_service)
    : option (messaging_service * future_result unit) :=
  send_message verb id w ms.

Definition send_message_oneway_timeout (timeout : Z) (verb : messaging_verb)
    (id : msg_addr) (w : wire unit) (ms : messaging_service)
    : option (messaging_service * future_result unit) :=
  send_message_timeout verb id timeout w ms.

(** ** The retry loop *)

(** One turn of the loop of [send_message_timeout_and_retry] as the rest of
    the world shapes it: the fate of the request, the gossiper's answer to
    [is_known_endpoint(id.addr)], what runs while the loop sleeps, and
    whether [sleep_abortable] completes ([None]) or fails. *)
Record attempt (R : Type) : Type := mk_attempt {
  att_wire : wire R;
  att_known_endpoint : bool;
  att_asleep : list env_action;
  att_sleep : option rpc_error
}.

Arguments mk_attempt {R} att_wire att_known_endpoint att_asleep att_sleep.
Arguments att_wire {R} a.
Arguments att_known_endpoint {R} a.
Arguments att_asleep {R} a.
Arguments att_sleep {R} a.

(** The body of [repeat_until_value]. [retry] is the counter kept by
    [do_with]; [sent] counts the calls of [send_message_timeout] so far.
    The script gives the world's part for each turn; when it runs out the
    loop is still going and there is no result ([None]). [retry] is a
    signed [int]: starting from a budget of at least 1 it is decremented
    down to 0 at most, so no overflow is written out. *)
Fixpoint retry_loop {R : Type} (verb : messaging_verb) (id : msg_addr)
    (timeout : Z) (nr_retry : Z) (retry : Z) (script : list (attempt R))
    (sent : nat) (ms : messaging_service)
    : option (messaging_service * future_result R * nat) :=
  match script with
  | [] => None
  | a :: rest =>
      match send_message_timeout verb id timeout (att_wire a) ms with
      | None => None
      | Some (ms1, Ok ret) => Some (ms1, Ok ret, S sent)
      | Some (ms1, Failed timeout_error) =>
          Some (ms1, Failed timeout_error, S sent)
      | Some (ms1, Failed closed_error) =>
          let retry := retry - 1 in
          if retry =? 0 then Some (ms1, Failed closed_error, S sent)
          else if _stopping ms1 then Some (ms1, Failed closed_error, S sent)
          else if negb (att_known_endpoint a)
          then Some (ms1, Failed closed_error, S sent)
          else
            let ms2 := run_env (att_asleep a) ms1 in
            match att_sleep a with
            | Some ep => Some (ms2, Failed ep, S sent)
            | None =>
                retry_loop verb id timeout nr_retry retry rest (S sent) ms2
            end
      | Some (ms1, Failed e) => Some (ms1, Failed e, S sent)
      end
  end.

Definition send_message_timeout_and_retry {R : Type} (verb : messaging_verb)
    (id : msg_addr) (timeout : Z) (nr_retry : Z) (wait : Z)
    (script : list (attempt R)) (ms : messaging_service)
    : option (messaging_service * future_result R * nat) :=
  retry_loop verb id timeout nr_retry nr_retry script 0 ms.

(** ** The life of a service as a sequence of events *)

(** A send primitive is entered ([ev_send]: the part up to the hand-over to
    the transport), the future of a request resolves and its continuation
    runs ([ev_complete]), or the rest of the program acts ([ev_env]). *)
Inductive event : Type :=
  | ev_send (verb : messaging_verb) (id : msg_addr)
  | ev_complete (verb : messaging_verb) (id : msg_addr)
                (f : future_result unit)
  | ev_env (a : env_action).

Definition step (ev : event) (ms : messaging_service) : messaging_service :=
  match ev with
  | ev_send verb id => fst (send_message_begin verb id ms)
  | ev_complete verb id f => fst (send_message_then verb id f ms)
  | ev_env a => run_env_action a ms
  end.

Definition run (tr : list event) (ms : messaging_service)
    : messaging_service :=
  foldl (fun acc ev => step ev acc) ms tr.

(** Whether the event resolves a send future for [v] with failure: either
    the request was sent and its future failed, or the primitive was entered
    while the service was stopping and returned a failed future at once. *)
Definition resolves_failed (v : messaging_verb) (ev : event)
    (ms : messaging_service) : bool :=
  match ev with
  | ev_send verb _ => verb_eqb verb v && _stopping ms
  | ev_complete verb _ f => verb_eqb verb v && failed f
  | ev_env _ => false
  end.

(** The same, for requests that were handed to the transport only. *)
Definition sent_and_failed (v : messaging_verb) (ev : event) : bool :=
  match ev with
  | ev_complete verb _ f => verb_eqb verb v && failed f
  | _ => false
  end.

(** The number of send futures for [v] that resolved with failure along
    a trace started in [ms]. *)
Fixpoint failed_futures (v : messaging_verb) (tr : list event)
    (ms : messaging_service) : nat :=
  match tr with
  | [] => 0%nat
  | ev :: tr' =>
      ((if resolves_failed v ev ms then 1 else 0)
       + failed_futures v tr' (step ev ms))%nat
  end.

(** The number of requests for [v] that were handed to the transport and
    whose future failed, along a trace. *)
Fixpoint failed_requests (v : messaging_verb) (tr : list event) : nat :=
  match tr with
  | [] => 0%nat
  | ev :: tr' =>
      ((if sent_and_failed v ev then 1 else 0) + failed_requests v tr')%nat
  end.

(** The claim about the counter at one input: after the trace, the counter
    of [v] is the number of send futures for [v] that resolved with
    failure. *)
Definition dropped_claim (v : messaging_verb) (tr : list event)
    (ms : messaging_service) : Prop :=
  get_dropped_messages (run tr ms) v = Z.of_nat (failed_futures v tr ms).

(** ** The policies as the specification words them *)

(** The topology service: datacenter and rack of an address. *)
Record snitch : Type := mk_snitch {
  get_datacenter : inet_address -> N;
  get_rack : inet_address -> N
}.

(** "none => false; all => true; dc => peer is in a different DC;
    rack => peer is in a different rack." *)
Definition spec_must_encrypt (sn : snitch) (self peer : inet_address)
    (ew : encrypt_what) : bool :=
  match ew with
  | encrypt_none => false
  | encrypt_all => true
  | encrypt_dc => negb (N.eqb (get_datacenter sn peer) (get_datacenter sn self))
  | encrypt_rack => negb (N.eqb (get_rack sn peer) (get_rack sn self))
  end.

(** "Determine mustCompress similarly (none / dc / all)." *)
Definition spec_must_compress (sn : snitch) (self peer : inet_address)
    (cw : compress_what) : bool :=
  match cw with
  | compress_none => false
  | compress_all => true
  | compress_dc => negb (N.eqb (get_datacenter sn peer) (get_datacenter sn self))
  end.

(** "If the peer resides in the same datacenter, the alternate is used;
    otherwise the original address is used." *)
Definition spec_preferred_ip (sn : snitch) (self : inet_address)
    (cache : gmap Z inet_address) (ep : inet_address) : inet_address :=
  match cache !! ep with
  | Some alt =>
      if N.eqb (get_datacenter sn ep) (get_datacenter sn self) then alt
      else ep
  | None => ep
  end.

(** Whether the cache holds a usable client for the verb and the peer, in
    which case [get_rpc_client] answers it and creates nothing. *)
Definition cached_healthy (verb : messaging_verb) (id : msg_addr)
    (ms : messaging_service) : bool :=
  match clients_at ms (get_rpc_client_idx verb) !! addr id with
  | Some it => negb (client_error ms (rpc_client (snd it)))
  | None => false
  end.

(** The claim about encryption at one input: the lambda [must_encrypt]
    follows the policy, and the client that [get_rpc_client] creates targets
    the TLS port exactly when the policy asks for encryption. *)
Definition encrypt_claim (sn : snitch) (self : inet_address)
    (verb : messaging_verb) (id : msg_addr) (ms : messaging_service) : Prop :=
  let wanted := spec_must_encrypt sn self (addr id) (_encrypt_what ms) in
  must_encrypt ms id = wanted
  /\ forall (ms' : messaging_service) (c : rpc_protocol_client_wrapper),
       get_rpc_client verb id ms = Some (ms', length (heap ms)) ->
       heap ms' !! length (heap ms) = Some c ->
       a_port (c_remote c) = if wanted then _ssl_port ms else _port ms.

(** The claim about compression at one input. *)
Definition compress_claim (sn : snitch) (self : inet_address)
    (id : msg_addr) (ms : messaging_service) : Prop :=
  must_compress ms id
  = spec_must_compress sn self (addr id) (_compress_what ms).

(** The claim about address resolution at one input. *)
Definition preferred_ip_claim (sn : snitch) (self : inet_address)
    (ep : inet_address) (ms : messaging_service) : Prop :=
  get_preferred_ip ms ep
  = spec_preferred_ip sn self (_preferred_ip_cache ms) ep.

(** ** Conditions on a retried attempt *)

Definition is_stop (a : env_action) : bool :=
  match a with
  | env_stop => true
  | _ => false
  end.

(** No [stop()] among the actions. *)
Definition no_stop (l : list env_action) : bool :=
  forallb (fun a => negb (is_stop a)) l.

Definition is_closed {R : Type} (f : future_result R) : bool :=
  match f with
  | Failed closed_error => true
  | _ => false
  end.

(** An attempt that fails with [closed_error] and after which the loop goes
    on: the service is not stopped meanwhile, the gossiper still knows the
    peer, and the sleep runs to its end. *)
Definition retried {R : Type} (a : attempt R) : bool :=
  is_closed (reply (att_wire a))
  && no_stop (in_flight (att_wire a))
  && att_known_endpoint a
  && no_stop (att_asleep a)
  && bool_decide (att_sleep a = None).

(** The first part of the retry law as the claim words it, at one input:
    the first [k] attempts fail with [closed_error], the next succeeds with
    [r], and the call answers [r]. *)
Definition retry_success_claim {R : Type} (verb : messaging_verb)
    (id : msg_addr) (timeout nr_retry wait : Z) (k : nat) (r : R)
    (script : list (attempt R)) (ms : messaging_service) : Prop :=
  Z.of_nat k < nr_retry ->
  (forall (i : nat) (a : attempt R),
      (i < k)%nat -> script !! i = Some a ->
      reply (att_wire a) = Failed closed_error) ->
  (exists a : attempt R,
      script !! k = Some a /\ reply (att_wire a) = Ok r) ->
  exists (ms' : messaging_service) (sent : nat),
    send_message_timeout_and_retry verb id timeout nr_retry wait script ms
    = Some (ms', Ok r, sent).

(** The second part: every attempt fails with [closed_error], and the call
    fails with [closed_error] after exactly [nr_retry] attempts. *)
Definition retry_exhaust_claim {R : Type} (verb : messaging_verb)
    (id : msg_addr) (timeout nr_retry wait : Z)
    (script : list (attempt R)) (ms : messaging_service) : Prop :=
  Z.of_nat (length script) = nr_retry ->
  (forall a : attempt R,
      a ∈ script -> reply (att_wire a) = Failed closed_error) ->
  exists ms' : messaging_service,
    send_message_timeout_and_retry verb id timeout nr_retry wait script ms
    = Some (ms', Failed closed_error, Z.to_nat nr_retry).

(** A peer that answers on the second attempt, but that the gossiper has
    dropped by the time the first attempt has failed. *)
Definition forgotten_peer_script : list (attempt Z) :=
  [ mk_attempt (mk_wire [] (Failed closed_error)) false [] None;
    mk_attempt (mk_wire [] (Ok 7)) true [] None ].

(** Two failures, then an answer; the peer stays known throughout. *)
Definition third_time_script : list (attempt Z) :=
  [ mk_attempt (mk_wire [env_transport_error 0] (Failed closed_error)) true [] None;
    mk_attempt (mk_wire [] (Failed closed_error)) true [] None;
    mk_attempt (mk_wire [] (Ok 7)) true [] None ].

(** A peer that never answers and that the gossiper has dropped by the time
    the first attempt has failed. *)
Definition dead_peer_script : list (attempt Z) :=
  [ mk_attempt (mk_wire [] (Failed closed_error)) false [] None;
    mk_attempt (mk_wire [] (Failed closed_error)) false [] None ].

(** ** Sample services *)

(** A topology that puts every address in one datacenter and one rack. *)
Definition one_dc : snitch := mk_snitch (fun _ => 0%N) (fun _ => 0%N).

(** A service listening on address 1, ports 7000 (plain) and 7001 (TLS),
    on a node whose broadcast address is 2. *)
Definition sample_service (ew : encrypt_what) (cw : compress_what)
    (sltba : bool) : messaging_service :=
  new_messaging_service 2 1 7000 ew cw 7001 (Some 0%N) sltba true.

Definition sample_peer : msg_addr := mk_msg_addr 3 0.

(** The sample service after it has opened a connection to the peer for
    [GOSSIP_ECHO]. *)
Definition connected_service : messaging_service :=
  fst (send_message_begin GOSSIP_ECHO sample_peer
         (sample_service encrypt_none compress_none false)).

(** The same service once [stop()] has been called. *)
Definition stopped_service : messaging_service := fst (stop connected_service).

(** The connected sample service after the transport has flagged its one
    client as broken. *)
Definition broken_service : messaging_service :=
  run_env_action (env_transport_error 0) connected_service.

(** A service with encryption [all] that also listens on its broadcast
    address, so that both slots of [_server] and of [_server_tls] hold a
    listener, and that has one connection open. *)
Definition broadcast_service : messaging_service :=
  fst (send_message_begin GOSSIP_ECHO sample_peer
         (sample_service encrypt_all compress_none true)).

(** ** Further operations of messaging_service.cc *)

(** [operator<] on [msg_addr]: by address, the cpu id is ignored. *)
Definition msg_addr_ltb (x y : msg_addr) : bool :=
  if Z.ltb (addr x) (addr y) then true else false.

(** [msg_addr::hash::operator()]: the hash of the raw address.
    [std_hash] is [std::hash<uint32_t>]. *)
Definition msg_addr_hash (std_hash : Z -> Z) (id : msg_addr) : Z :=
  std_hash (addr id).

(** [foreach_client]: the callback is run on every entry of every table,
    table 0 first. The callback returns nothing; what it does is given as a
    transformer of whatever it accumulates. *)
Definition foreach_client {A : Type} (f : msg_addr -> shard_info -> A -> A)
    (ms : messaging_service) (acc : A) : A :=
  foldl (fun acc (m : clients_map) =>
           foldl (fun acc i => f (fst (snd i)) (snd (snd i)) acc) acc
                 (map_to_list m))
        acc (_clients ms).

(** The entries [foreach_client] hands to its callback, in order. *)
Definition visited_clients (ms : messaging_service)
    : list (msg_addr * shard_info) :=
  foreach_client (fun id info acc => acc ++ [(id, info)]) ms [].

(** [is_stopping] *)
Definition is_stopping (ms : messaging_service) : bool := _stopping ms.

(** The gossip wrappers. The payload travels inside the request, whose
    fate is [w]. *)
Definition send_gossip_echo (id : msg_addr) (w : wire unit)
    (ms : messaging_service)
    : option (messaging_service * future_result unit) :=
  send_message_timeout GOSSIP_ECHO id 3000 w ms.

Definition send_gossip_shutdown (id : msg_addr) (from : inet_address)
    (w : wire unit) (ms : messaging_service)
    : option (messaging_service * future_result unit) :=
  send_message_oneway GOSSIP_SHUTDOWN id w ms.

Definition send_gossip_digest_syn (id : msg_addr) (w : wire unit)
    (ms : messaging_service)
    : option (messaging_service * future_result unit) :=
  send_message_oneway GOSSIP_DIGEST_SYN id w ms.

Definition send_gossip_digest_ack (id : msg_addr) (w : wire unit)
    (ms : messaging_service)
    : option (messaging_service * future_result unit) :=
  send_message_oneway GOSSIP_DIGEST_ACK id w ms.

Definition send_gossip_digest_ack2 (id : msg_addr) (w : wire unit)
    (ms : messaging_service)
    : option (messaging_service * future_result unit) :=
  send_message_oneway GOSSIP_DIGEST_ACK2 id w ms.

(** ** The serializer thunks *)

(** The payload serializer the thunks forward to ([ser::serialize] and
    [ser::deserialize]): [serialize] appends the encoding of a value to the
    output, [deserialize] takes a value off the front of the input. *)
Record serializer (T : Type) : Type := mk_serializer {
  serialize : list Z -> T -> list Z;
  deserialize : list Z -> option (T * list Z)
}.

Arguments mk_serializer {T} serialize deserialize.
Arguments serialize {T} s out data.
Arguments deserialize {T} s input.

Record foreign_ptr (T : Type) : Type := make_foreign { foreign_get : T }.
Record lw_shared_ptr (T : Type) : Type := make_lw_shared { lw_shared_get : T }.

Arguments make_foreign {T} _.
Arguments foreign_get {T} _.
Arguments make_lw_shared {T} _.
Arguments lw_shared_get {T} _.

(** [write(serializer, out, data)] and [read(serializer, in, type<T>)] *)
Definition write {T : Type} (s : serializer T) (out : list Z) (data : T)
    : list Z :=
  serialize s out data.

Definition read {T : Type} (s : serializer T) (input : list Z)
    : option (T * list Z) :=
  deserialize s input.

(** The overloads for [foreign_ptr<T>] *)
Definition write_foreign {T : Type} (s : serializer T) (out : list Z)
    (v : foreign_ptr T) : list Z :=
  write s out (foreign_get v).

Definition read_foreign {T : Type} (s : serializer T) (input : list Z)
    : option (foreign_ptr T * list Z) :=
  match read s input with
  | Some (t, rest) => Some (make_foreign t, rest)
  | None => None
  end.

(** The overloads for [lw_shared_ptr<T>] *)
Definition write_lw_shared {T : Type} (s : serializer T) (out : list Z)
    (v : lw_shared_ptr T) : list Z :=
  write s out (lw_shared_get v).

Definition read_lw_shared {T : Type} (s : serializer T) (input : list Z)
    : option (lw_shared_ptr T * list Z) :=
  match read s input with
  | Some (t, rest) => Some (make_lw_shared t, rest)
  | None => None
  end.

(** A serializer of integers that writes one cell per value. *)
Definition cell_serializer : serializer Z :=
  mk_serializer (fun out x => out ++ [x])
                (fun input => match input with
                              | x :: rest => Some (x, rest)
                              | [] => None
                              end).

(** ** Soundness of the cache *)

(** What the code keeps true of the tables, the client objects and the
    record of [stop()] calls: a cached pointer refers to a client object
    and sits under the address of its key; no client is cached twice;
    [stop()] has only been called on existing clients; and, while the
    service runs, on no cached one. *)
Definition cache_ok (ms : messaging_service) : Prop :=
  (forall (idx : nat) (k : Z) (it : msg_addr * shard_info),
      clients_at ms idx !! k = Some it ->
      (rpc_client (snd it) < length (heap ms))%nat /\ addr (fst it) = k)
  /\ (forall (idx1 idx2 : nat) (k1 k2 : Z) (it1 it2 : msg_addr * shard_info),
        clients_at ms idx1 !! k1 = Some it1 ->
        clients_at ms idx2 !! k2 = Some it2 ->
        rpc_client (snd it1) = rpc_client (snd it2) ->
        idx1 = idx2 /\ k1 = k2)
  /\ (forall h : nat,
        client_stop h ∈ stop_calls ms -> (h < length (heap ms))%nat)
  /\ (_stopping ms = false ->
      forall (idx : nat) (k : Z) (it : msg_addr * shard_info),
        clients_at ms idx !! k = Some it ->
        client_stop (rpc_client (snd it)) ∉ stop_calls ms).

(** The stop calls the future of [stop] waits for, read off the listener
    slots and the tables: the first bound slot of each listener array, and
    every cached client. *)
Fixpoint server_stops (tls : bool) (i : nat)
    (slots : list (option rpc_protocol_server_wrapper)) : future :=
  match slots with
  | [] => []
  | Some _ :: _ => [server_stop tls i]
  | None :: rest => server_stops tls (S i) rest
  end.

Definition table_stops (m : clients_map) : future :=
  map (fun c : Z * (msg_addr * shard_info) =>
         client_stop (rpc_client (snd (snd c)))) (map_to_list m).

Definition client_stops (ms : messaging_service) : future :=
  concat (map table_stops (_clients ms)).

(** The states a service goes through: it is constructed, and then
    [start_listen] is called, sends are entered, their futures resolve, and
    the rest of the program acts, in any order. *)
Inductive reachable : messaging_service -> Prop :=
  | reach_new (bc ip_ : inet_address) (port : Z) (ew : encrypt_what)
      (cw : compress_what) (ssl_port : Z) (credentials : credentials_ptr)
      (sltba listen_now : bool) :
      reachable (new_messaging_service bc ip_ port ew cw ssl_port
                   credentials sltba listen_now)
  | reach_start_listen (bc : inet_address) (ms : messaging_service) :
      reachable ms -> reachable (start_listen bc ms)
  | reach_step (ev : event) (ms : messaging_service) :
      reachable ms -> reachable (step ev ms).

(** A service with encryption [all], asked to listen on its broadcast
    address too, but built while that address was still its listen
    address 1: slot 0 of both listener arrays is bound, slot 1 is not. *)
Definition late_broadcast_service : messaging_service :=
  new_messaging_service 1 1 7000 encrypt_all compress_none 7001 (Some 0%N)
                        true true.

(** ** Eviction after a transport closure *)

(** Whether [remove_error_rpc_client verb id] has a client to drop: the
    service is not stopping and the client cached for the peer in the table
    of the verb is in error. *)
Definition closed_error_evicts (verb : messaging_verb) (id : msg_addr)
    (ms : messaging_service) : bool :=
  negb (_stopping ms)
  && match clients_at ms (get_rpc_client_idx verb) !! addr id with
     | Some it => client_error ms (rpc_client (snd it))
     | None => false
     end.

(** The claim about eviction at one input: a send whose future fails with
    [closed_error] leaves no client cached for the peer in the table of the
    verb. *)
Definition eviction_claim {R : Type} (verb : messaging_verb) (id : msg_addr)
    (w : wire R) (ms : messaging_service) : Prop :=
  reply w = Failed closed_error ->
  exists ms1 : messaging_service,
    send_message verb id w ms = Some (ms1, Failed closed_error)
    /\ clients_at ms1 (get_rpc_client_idx verb) !! addr id = None.

(** A request during which the transport breaks the connection and
    [stop()] is called, and whose future then fails with [closed_error]. *)
Definition closed_during_stop : wire unit :=
  mk_wire [env_transport_error 0; env_stop] (Failed closed_error).

(** A request during which the transport breaks the connection, and whose
    future then fails with [closed_error]. *)
Definition closed_by_transport : wire unit :=
  mk_wire [env_transport_error 0] (Failed closed_error).

(** ** Basic facts *)

Lemma verb_eqb_eq (a b : messaging_verb) : verb_eqb a b = true <-> a = b.
Proof. unfold verb_eqb. apply bool_decide_eq_true. Qed.

Lemma verb_eqb_refl (a : messaging_verb) : verb_eqb a a = true.
Proof. by apply verb_eqb_eq. Qed.

Lemma clients_at_set_insert (ms : messaging_service) (idx : nat)
    (m m' : clients_map) :
  _clients ms !! idx = Some m ->
  clients_at (set_clients (<[idx := m']> (_clients ms)) ms) idx = m'.
Proof.
  intros Hm. unfold clients_at. cbn.
  rewrite list_lookup_insert_eq; [done|].
  by eapply lookup_lt_Some.
Qed.

Lemma clients_at_lookup_Some (ms : messaging_service) (idx : nat) (k : Z)
    (it : msg_addr * shard_info) :
  clients_at ms idx !! k = Some it ->
  exists m : clients_map, _clients ms !! idx = Some m /\ m !! k = Some it.
Proof.
  unfold clients_at. destruct (_clients ms !! idx) as [m|] eqn:E; cbn.
  - intros H. by exists m.
  - rewrite lookup_empty. discriminate.
Qed.

(** A loop whose body leaves the state alone leaves the state alone. *)
Lemma foldl_fixed {A S : Type} (f : S -> A -> S) (l : list A) (s : S) :
  (forall a, f s a = s) -> foldl f s l = s.
Proof.
  intros Hf. induction l as [|a l IH]; cbn; [done|]. by rewrite Hf.
Qed.

(** *** Removal while the service is stopping *)

Lemma remove_rpc_client_one_stopping (idx : nat) (id : msg_addr)
    (dead_only : bool) (ms : messaging_service) :
  _stopping ms = true -> remove_rpc_client_one idx id dead_only ms = ms.
Proof. intros H. unfold remove_rpc_client_one. by rewrite H. Qed.

Lemma remove_rpc_client_stopping (id : msg_addr) (ms : messaging_service) :
  _stopping ms = true -> remove_rpc_client id ms = ms.
Proof.
  intros H. unfold remove_rpc_client. apply foldl_fixed.
  intros idx. by apply remove_rpc_client_one_stopping.
Qed.

(** ** Verb classes *)

(** C9. [get_rpc_client_idx] is a function of the verb alone: it answers 1
    exactly for GOSSIP_DIGEST_SYN, GOSSIP_DIGEST_ACK2, GOSSIP_SHUTDOWN and
    GOSSIP_ECHO, and 0 for every other verb, GOSSIP_DIGEST_ACK included. *)
Theorem get_rpc_client_idx_classes :
  forall v : messaging_verb,
    (get_rpc_client_idx v = 1%nat <->
       v = GOSSIP_DIGEST_SYN \/ v = GOSSIP_DIGEST_ACK2 \/
       v = GOSSIP_SHUTDOWN \/ v = GOSSIP_ECHO)
    /\ (get_rpc_client_idx v = 0%nat <->
       ~ (v = GOSSIP_DIGEST_SYN \/ v = GOSSIP_DIGEST_ACK2 \/
          v = GOSSIP_SHUTDOWN \/ v = GOSSIP_ECHO))
    /\ get_rpc_client_idx GOSSIP_DIGEST_ACK = 0%nat.
Proof.
  intros v. split; [|split]; [| |reflexivity].
  - destruct v; cbn; split; intros H; try discriminate; try reflexivity;
      auto; destruct H as [H|[H|[H|H]]]; discriminate.
  - destruct v; cbn; split; intros H; try discriminate; try reflexivity;
      try (intros [H'|[H'|[H'|H']]]; discriminate);
      exfalso; apply H; auto.
Qed.

(** ** Removal during shutdown *)

(** C10. While the service is stopping, [remove_rpc_client] and
    [remove_error_rpc_client] return the state they were given: no table
    changes, no entry is erased, no client object changes and no [stop()]
    is recorded. *)
Theorem remove_is_noop_when_stopping :
  forall (verb : messaging_verb) (id : msg_addr) (ms : messaging_service),
    _stopping ms = true ->
    remove_rpc_client id ms = ms
    /\ remove_error_rpc_client verb id ms = ms
    /\ _clients (remove_rpc_client id ms) = _clients ms
    /\ _clients (remove_error_rpc_client verb id ms) = _clients ms
    /\ stop_calls (remove_rpc_client id ms) = stop_calls ms
    /\ stop_calls (remove_error_rpc_client verb id ms) = stop_calls ms.
Proof.
  intros verb id ms H.
  assert (H1 : remove_rpc_client id ms = ms)
    by by apply remove_rpc_client_stopping.
  assert (H2 : remove_error_rpc_client verb id ms = ms)
    by by apply remove_rpc_client_one_stopping.
  rewrite H1, H2. repeat split.
Qed.

(** The stopped sample service still holds its connection to the peer, and
    removing that peer changes nothing. *)
Lemma remove_is_noop_when_stopping_witness :
  _stopping stopped_service = true
  /\ is_Some (clients_at stopped_service 1 !! addr sample_peer)
  /\ remove_rpc_client sample_peer stopped_service = stopped_service
  /\ remove_error_rpc_client GOSSIP_ECHO sample_peer stopped_service
     = stopped_service.
Proof.
  split; [reflexivity|]. split; [vm_compute; eauto|].
  pose proof (remove_is_noop_when_stopping GOSSIP_ECHO sample_peer
                stopped_service eq_refl) as (H1 & H2 & _).
  split; [exact H1 | exact H2].
Defined.

(** ** Sending while the service is stopping *)

Lemma send_message_stopping {R : Type} (verb : messaging_verb)
    (id : msg_addr) (w : wire R) (ms : messaging_service) :
  _stopping ms = true -> send_message verb id w ms = Some (ms, Failed closed_error).
Proof.
  intros H. unfold send_message, send_message_begin. by rewrite H.
Qed.

Lemma send_message_timeout_stopping {R : Type} (verb : messaging_verb)
    (id : msg_addr) (timeout : Z) (w : wire R) (ms : messaging_service) :
  _stopping ms = true ->
  send_message_timeout verb id timeout w ms = Some (ms, Failed closed_error).
Proof.
  intros H. unfold send_message_timeout, send_message_timeout_begin.
  by rewrite H.
Qed.

(** C4. When the service is stopping, each send primitive answers a future
    that has already failed with [closed_error] and hands back the state it
    was given: [get_rpc_client] is not reached, so no client is looked up or
    created, no table changes and no counter moves. This holds for the
    synchronous part of a send, for [send_message], [send_message_oneway],
    [send_message_timeout], [send_message_oneway_timeout], and for a retried
    send, whose single attempt fails the same way. *)
Theorem send_when_stopping_fails_without_effect :
  forall (R : Type) (verb : messaging_verb) (id : msg_addr) (timeout : Z)
         (w : wire R) (w1 : wire unit) (ms : messaging_service),
    _stopping ms = true ->
    send_message_begin verb id ms = (ms, PreFailed closed_error)
    /\ send_message_timeout_begin verb id ms = (ms, PreFailed closed_error)
    /\ send_message verb id w ms = Some (ms, Failed closed_error)
    /\ send_message_oneway verb id w1 ms = Some (ms, Failed closed_error)
    /\ send_message_timeout verb id timeout w ms
       = Some (ms, Failed closed_error)
    /\ send_message_oneway_timeout timeout verb id w1 ms
       = Some (ms, Failed closed_error)
    /\ (forall (nr_retry wait : Z) (a : attempt R) (rest : list (attempt R)),
          send_message_timeout_and_retry verb id timeout nr_retry wait
            (a :: rest) ms
          = Some (ms, Failed closed_error, 1%nat)).
Proof.
  intros R verb id timeout w w1 ms H.
  split; [unfold send_message_begin; by rewrite H|].
  split; [unfold send_message_timeout_begin; by rewrite H|].
  split; [by apply send_message_stopping|].
  split; [by apply send_message_stopping|].
  split; [by apply send_message_timeout_stopping|].
  split; [by apply send_message_timeout_stopping|].
  intros nr_retry wait a rest.
  unfold send_message_timeout_and_retry. cbn [retry_loop].
  rewrite send_message_timeout_stopping by done.
  rewrite H. by destruct (nr_retry - 1 =? 0).
Qed.

(** On the stopped sample service a send fails at once; its table, heap,
    counters and stop log are those of the state before the call. *)
Lemma send_when_stopping_fails_without_effect_witness :
  _stopping stopped_service = true
  /\ send_message GOSSIP_DIGEST_ACK sample_peer
       (mk_wire [] (Ok tt)) stopped_service
     = Some (stopped_service, Failed closed_error)
  /\ send_message_timeout GOSSIP_ECHO sample_peer 3000
       (mk_wire [] (Ok tt)) stopped_service
     = Some (stopped_service, Failed closed_error).
Proof.
  split; [reflexivity|].
  pose proof (send_when_stopping_fails_without_effect unit GOSSIP_DIGEST_ACK
                sample_peer 3000 (mk_wire [] (Ok tt)) (mk_wire [] (Ok tt))
                stopped_service eq_refl) as (_ & _ & H3 & _).
  pose proof (send_when_stopping_fails_without_effect unit GOSSIP_ECHO
                sample_peer 3000 (mk_wire [] (Ok tt)) (mk_wire [] (Ok tt))
                stopped_service eq_refl) as (_ & _ & _ & _ & H5 & _).
  split; [exact H3 | exact H5].
Defined.

(** ** Eviction and creation in the cache *)

Lemma remove_rpc_client_one_frame (idx : nat) (id : msg_addr)
    (dead_only : bool) (ms : messaging_service) :
  let ms' := remove_rpc_client_one idx id dead_only ms in
  heap ms' = heap ms
  /\ _stopping ms' = _stopping ms
  /\ _dropped_messages ms' = _dropped_messages ms
  /\ (forall id', make_client ms' id' = make_client ms id').
Proof.
  unfold remove_rpc_client_one.
  destruct (_stopping ms) eqn:Hs; [by rewrite Hs|].
  destruct (clients_at ms idx !! addr id) as [it|]; [|by rewrite Hs].
  destruct (negb dead_only || client_error ms (rpc_client it.2));
    cbn; by rewrite ?Hs.
Qed.

Lemma remove_rpc_client_one_evicts (idx : nat) (id : msg_addr)
    (dead_only : bool) (ms : messaging_service) (it : msg_addr * shard_info) :
  _stopping ms = false ->
  clients_at ms idx !! addr id = Some it ->
  negb dead_only || client_error ms (rpc_client it.2) = true ->
  let ms' := remove_rpc_client_one idx id dead_only ms in
  clients_at ms' idx !! addr id = None
  /\ stop_calls ms' = client_stop (rpc_client it.2) :: stop_calls ms.
Proof.
  intros Hs Hit Hdead. unfold remove_rpc_client_one.
  rewrite Hs, Hit, Hdead. cbn.
  destruct (clients_at_lookup_Some _ _ _ _ Hit) as (m & Hm & _).
  split; [|done].
  change (clients_at
            (set_clients (<[idx := delete (addr id) (clients_at ms idx)]> (_clients ms)) ms)
            idx !! addr id = None).
  rewrite (clients_at_set_insert _ _ m) by done.
  apply lookup_delete_eq.
Qed.

Lemma increment_dropped_messages_frame (verb : messaging_verb)
    (ms : messaging_service) :
  let ms' := increment_dropped_messages verb ms in
  _clients ms' = _clients ms /\ heap ms' = heap ms
  /\ stop_calls ms' = stop_calls ms /\ _stopping ms' = _stopping ms.
Proof. by cbn. Qed.

(** When the service is running and the cache has no usable client for the
    verb and the peer, [get_rpc_client] allocates a client object, the one
    [make_client] describes, and answers it. *)
Lemma get_rpc_client_creates (verb : messaging_verb) (id : msg_addr)
    (ms : messaging_service) :
  _stopping ms = false ->
  cached_healthy verb id ms = false ->
  exists ms' : messaging_service,
    get_rpc_client verb id ms = Some (ms', length (heap ms))
    /\ heap ms' = heap ms ++ [make_client ms id]
    /\ _stopping ms' = false.
Proof.
  intros Hs Hc. unfold get_rpc_client, cached_healthy in *. rewrite Hs.
  destruct (clients_at ms (get_rpc_client_idx verb) !! addr id) as [it|] eqn:Hit.
  - apply negb_false_iff in Hc. rewrite Hc. cbn [negb].
    unfold remove_error_rpc_client.
    destruct (remove_rpc_client_one_frame (get_rpc_client_idx verb) id true ms)
      as (Hh & Hst & _ & Hmk).
    destruct (remove_rpc_client_one_evicts (get_rpc_client_idx verb) id true ms it
                Hs Hit) as (Hnone & _); [by rewrite Hc|].
    set (ms1 := remove_rpc_client_one (get_rpc_client_idx verb) id true ms) in *.
    change (clients_at (set_heap (heap ms1 ++ [make_client ms1 id]) ms1)
              (get_rpc_client_idx verb))
      with (clients_at ms1 (get_rpc_client_idx verb)).
    rewrite Hnone, Hh, Hmk. eexists. split; [reflexivity|].
    cbn. by rewrite ?Hh, ?Hst, ?Hs.
  - change (clients_at (set_heap (heap ms ++ [make_client ms id]) ms)
              (get_rpc_client_idx verb))
      with (clients_at ms (get_rpc_client_idx verb)).
    rewrite Hit. eexists. split; [reflexivity|]. by cbn.
Qed.

(** In the send primitives the assertion of [get_rpc_client] cannot fail:
    they run to a result. *)
Lemma get_rpc_client_total (verb : messaging_verb) (id : msg_addr)
    (ms : messaging_service) :
  _stopping ms = false -> is_Some (get_rpc_client verb id ms).
Proof.
  intros Hs. unfold get_rpc_client. rewrite Hs.
  destruct (clients_at ms (get_rpc_client_idx verb) !! addr id) as [it|].
  - destruct (negb (client_error ms (rpc_client it.2))); [eauto|].
    match goal with
    | |- context [clients_at ?m ?i !! ?k] => destruct (clients_at m i !! k)
    end; eauto.
  - match goal with
    | |- context [clients_at ?m ?i !! ?k] => destruct (clients_at m i !! k)
    end; eauto.
Qed.

Lemma send_message_total {R : Type} (verb : messaging_verb) (id : msg_addr)
    (w : wire R) (ms : messaging_service) :
  is_Some (send_message verb id w ms).
Proof.
  unfold send_message, send_message_begin.
  destruct (_stopping ms) eqn:Hs; [eauto|].
  destruct (get_rpc_client_total verb id ms Hs) as [[ms' c] ->]. eauto.
Qed.

(** ** The client that [get_rpc_client] creates *)

Lemma lookup_snoc_length {A : Type} (l : list A) (x : A) :
  (l ++ [x]) !! length l = Some x.
Proof.
  rewrite lookup_app_r by lia. by rewrite Nat.sub_diag.
Qed.

(** C2, at an input where the code departs from it. The sample service is
    built with the encrypt policy [all]: [start_listen] has opened its TLS
    listener on port 7001, and the policy asks for encryption towards every
    peer. [must_encrypt] answers false all the same, and the client that
    [get_rpc_client] creates for the peer uses a plain socket to port 7000. *)
Theorem must_encrypt_ignores_policy :
  let ms := sample_service encrypt_all compress_none false in
  _encrypt_what ms = encrypt_all
  /\ _port ms = 7000 /\ _ssl_port ms = 7001
  /\ slot_bound (_server_tls ms) 0 = true
  /\ spec_must_encrypt one_dc 2 (addr sample_peer) (_encrypt_what ms) = true
  /\ must_encrypt ms sample_peer = false
  /\ ~ encrypt_claim one_dc 2 GOSSIP_ECHO sample_peer ms
  /\ exists (ms' : messaging_service) (c : rpc_protocol_client_wrapper),
       get_rpc_client GOSSIP_ECHO sample_peer ms = Some (ms', 0%nat)
       /\ heap ms' !! 0%nat = Some c
       /\ a_port (c_remote c) = 7000
       /\ c_tls c = None.
Proof.
  intros ms. do 6 (split; [reflexivity|]). split.
  - intros [Hmust _]. vm_compute in Hmust. discriminate.
  - destruct (get_rpc_client_creates GOSSIP_ECHO sample_peer ms eq_refl eq_refl)
      as (ms' & Hget & Hheap & _).
    exists ms', (make_client ms sample_peer). split; [exact Hget|].
    split; [|split; reflexivity].
    rewrite Hheap. apply (lookup_snoc_length (heap ms)).
Qed.

(** With the policy [dc] and every address in one datacenter, the sample
    service compresses all the same: the claim about compression fails
    there. *)
Lemma compress_dc_same_datacenter :
  ~ compress_claim one_dc 2 sample_peer
      (sample_service encrypt_none compress_dc false).
Proof.
  intros H. vm_compute in H. discriminate.
Qed.

(** C8, as the code has it. [must_compress] depends on the compress policy
    alone: [none] gives false, [all] gives true, and [dc] gives true for
    every peer, in whichever datacenter. The client that [get_rpc_client]
    creates has the compressor factory set exactly when [must_compress]
    holds. *)
Theorem new_client_compression :
  forall (verb : messaging_verb) (id : msg_addr) (ms : messaging_service),
    _stopping ms = false ->
    cached_healthy verb id ms = false ->
    exists (ms' : messaging_service) (c : rpc_protocol_client_wrapper),
      get_rpc_client verb id ms = Some (ms', length (heap ms))
      /\ heap ms' !! length (heap ms) = Some c
      /\ compressor_factory (c_opts c) = must_compress ms id
      /\ must_compress ms id
         = match _compress_what ms with
           | compress_none => false
           | compress_dc => true
           | compress_all => true
           end
      /\ (forall (ms2 : messaging_service) (id2 : msg_addr),
            _compress_what ms2 = _compress_what ms ->
            must_compress ms2 id2 = must_compress ms id).
Proof.
  intros verb id ms Hs Hc.
  destruct (get_rpc_client_creates verb id ms Hs Hc) as (ms' & Hget & Hheap & _).
  exists ms', (make_client ms id). split; [exact Hget|].
  split; [rewrite Hheap; apply lookup_snoc_length|].
  split; [|split].
  - unfold make_client. cbn. by destruct (must_compress ms id).
  - unfold must_compress. by destruct (_compress_what ms).
  - intros ms2 id2 Heq. unfold must_compress. by rewrite Heq.
Qed.

Lemma new_client_compression_witness :
  let ms := sample_service encrypt_none compress_dc false in
  _stopping ms = false
  /\ cached_healthy GOSSIP_ECHO sample_peer ms = false
  /\ exists (ms' : messaging_service) (c : rpc_protocol_client_wrapper),
       get_rpc_client GOSSIP_ECHO sample_peer ms = Some (ms', 0%nat)
       /\ heap ms' !! 0%nat = Some c
       /\ compressor_factory (c_opts c) = true.
Proof.
  intros ms. split; [reflexivity|]. split; [reflexivity|].
  destruct (new_client_compression GOSSIP_ECHO sample_peer ms
              eq_refl eq_refl) as (ms' & c & H1 & H2 & H3 & _).
  exists ms', c. split; [exact H1|]. split; [exact H2|]. exact H3.
Defined.

(** C7, at an input where the code departs from it. The preferred-IP cache
    of the sample service maps the peer's address 3 to 30 and the peer is in
    the node's datacenter, so address 30 should be used; [get_preferred_ip]
    answers 3, and the client that [get_rpc_client] then creates connects
    to 3. *)
Theorem get_preferred_ip_ignores_cache :
  let ms := cache_preferred_ip 3 30
              (sample_service encrypt_none compress_none false) in
  _preferred_ip_cache ms !! 3 = Some 30
  /\ get_datacenter one_dc 3 = get_datacenter one_dc 2
  /\ spec_preferred_ip one_dc 2 (_preferred_ip_cache ms) 3 = 30
  /\ get_preferred_ip ms 3 = 3
  /\ ~ preferred_ip_claim one_dc 2 3 ms
  /\ exists (ms' : messaging_service) (c : rpc_protocol_client_wrapper),
       get_rpc_client GOSSIP_ECHO sample_peer ms = Some (ms', 0%nat)
       /\ heap ms' !! 0%nat = Some c
       /\ ip (c_remote c) = 3.
Proof.
  intros ms. split; [reflexivity|]. split; [reflexivity|].
  split; [reflexivity|]. split; [reflexivity|]. split.
  - intros H. vm_compute in H. discriminate.
  - destruct (get_rpc_client_creates GOSSIP_ECHO sample_peer ms eq_refl eq_refl)
      as (ms' & Hget & Hheap & _).
    exists ms', (make_client ms sample_peer). split; [exact Hget|].
    split; [|reflexivity].
    rewrite Hheap. apply (lookup_snoc_length (heap ms)).
Qed.

(** ** Shutdown *)

(** The server loop returns from its first bound slot: the future it
    answers waits for one listener at most. *)
Lemma stop_server_loop_at_most_one (tls : bool) (i : nat)
    (slots : list (option rpc_protocol_server_wrapper))
    (ms : messaging_service) :
  (length (snd (stop_server_loop tls i slots ms)) <= 1)%nat.
Proof.
  revert i. induction slots as [|[s|] rest IH]; intros i; cbn; auto.
Qed.

(** Whenever slot 0 holds a listener the loop returns there, whatever the
    later slots hold. *)
Lemma stop_server_loop_first_bound (tls : bool) (i : nat)
    (s : rpc_protocol_server_wrapper)
    (rest : list (option rpc_protocol_server_wrapper))
    (ms : messaging_service) :
  stop_server_loop tls i (Some s :: rest) ms
  = (set_stop_calls (server_stop tls i :: stop_calls ms) ms,
     [server_stop tls i]).
Proof. reflexivity. Qed.

(** C1, at an input where the code departs from it. The service listens on
    its own and on its broadcast address, plain and TLS, so all four slots
    hold a listener. [stop] sets [_stopping] and waits for the listeners of
    slot 0 and for the cached client; [stop()] is never called on the
    listeners of slot 1, plain or TLS. *)
Theorem stop_skips_second_listener :
  let ms := broadcast_service in
  slot_bound (_server ms) 0 = true
  /\ slot_bound (_server ms) 1 = true
  /\ slot_bound (_server_tls ms) 0 = true
  /\ slot_bound (_server_tls ms) 1 = true
  /\ _stopping (fst (stop ms)) = true
  /\ snd (stop ms) = [server_stop false 0; server_stop true 0; client_stop 0]
  /\ stop_calls (fst (stop ms))
     = [client_stop 0; server_stop true 0; server_stop false 0]
  /\ (server_stop false 1 ∉ snd (stop ms))
  /\ (server_stop true 1 ∉ snd (stop ms))
  /\ (server_stop false 1 ∉ stop_calls (fst (stop ms)))
  /\ (server_stop true 1 ∉ stop_calls (fst (stop ms))).
Proof.
  intros ms.
  assert (Hf : snd (stop ms)
               = [server_stop false 0; server_stop true 0; client_stop 0])
    by (vm_compute; reflexivity).
  assert (Hc : stop_calls (fst (stop ms))
               = [client_stop 0; server_stop true 0; server_stop false 0])
    by (vm_compute; reflexivity).
  rewrite Hf, Hc.
  do 5 (split; [by vm_compute|]).
  do 2 (split; [reflexivity|]).
  repeat split; intros H;
    repeat (apply elem_of_cons in H as [H|H]; [discriminate|]);
    by apply elem_of_nil in H.
Qed.

(** ** What leaves [_stopping] alone *)

Lemma get_rpc_client_stopping (verb : messaging_verb) (id : msg_addr)
    (ms ms' : messaging_service) (c : nat) :
  get_rpc_client verb id ms = Some (ms', c) -> _stopping ms' = false.
Proof.
  unfold get_rpc_client. destruct (_stopping ms) eqn:Hs; [discriminate|].
  assert (Hrm : _stopping (remove_error_rpc_client verb id ms) = false).
  { unfold remove_error_rpc_client.
    destruct (remove_rpc_client_one_frame (get_rpc_client_idx verb) id true ms)
      as (_ & Hst & _). by rewrite Hst. }
  destruct (clients_at ms (get_rpc_client_idx verb) !! addr id) as [it|].
  - destruct (negb (client_error ms (rpc_client it.2))).
    + intros [= <- _]. exact Hs.
    + match goal with
      | |- context [clients_at ?m ?i !! ?k] => destruct (clients_at m i !! k)
      end; intros [= <- _]; exact Hrm.
  - match goal with
    | |- context [clients_at ?m ?i !! ?k] => destruct (clients_at m i !! k)
    end; intros [= <- _]; exact Hs.
Qed.

Lemma remove_rpc_client_keeps_stopping (id : msg_addr)
    (ms : messaging_service) :
  _stopping (remove_rpc_client id ms) = _stopping ms.
Proof.
  unfold remove_rpc_client.
  generalize (seq 0 (length (_clients ms))). intros l. revert ms.
  induction l as [|idx l IH]; intros ms; cbn; [done|].
  rewrite IH.
  by destruct (remove_rpc_client_one_frame idx id false ms) as (_ & Hst & _).
Qed.

Lemma set_client_error_keeps_stopping (h : nat) (ms : messaging_service) :
  _stopping (set_client_error h ms) = _stopping ms.
Proof. unfold set_client_error. by destruct (heap ms !! h). Qed.

Lemma run_env_action_keeps_stopping (a : env_action)
    (ms : messaging_service) :
  is_stop a = false -> _stopping (run_env_action a ms) = _stopping ms.
Proof.
  destruct a; cbn; intros H; try discriminate.
  - apply set_client_error_keeps_stopping.
  - apply remove_rpc_client_keeps_stopping.
  - reflexivity.
Qed.

Lemma run_env_keeps_stopping (l : list env_action) (ms : messaging_service) :
  no_stop l = true -> _stopping (run_env l ms) = _stopping ms.
Proof.
  revert ms. induction l as [|a l IH]; intros ms H; cbn in *; [done|].
  apply andb_true_iff in H as [Ha Hl].
  unfold run_env in IH. rewrite IH by done.
  apply run_env_action_keeps_stopping. by apply negb_true_iff.
Qed.

Lemma send_message_timeout_then_keeps_stopping {R : Type}
    (verb : messaging_verb) (id : msg_addr) (f : future_result R)
    (ms : messaging_service) :
  _stopping (fst (send_message_timeout_then verb id f ms)) = _stopping ms.
Proof.
  destruct f as [r|e]; [done|].
  destruct e; cbn; try done.
  unfold remove_error_rpc_client.
  by destruct (remove_rpc_client_one_frame (get_rpc_client_idx verb) id true
                 (increment_dropped_messages verb ms)) as (_ & Hst & _).
Qed.

(** A send on a running service goes out, and its future resolves the way
    the transport says. *)
Lemma send_message_timeout_running {R : Type} (verb : messaging_verb)
    (id : msg_addr) (timeout : Z) (w : wire R) (ms : messaging_service) :
  _stopping ms = false ->
  exists ms1 : messaging_service,
    send_message_timeout verb id timeout w ms = Some (ms1, reply w)
    /\ (no_stop (in_flight w) = true -> _stopping ms1 = false).
Proof.
  intros Hs. unfold send_message_timeout, send_message_timeout_begin.
  rewrite Hs.
  destruct (get_rpc_client_total verb id ms Hs) as [[ms0 c] Hget].
  rewrite Hget.
  pose proof (get_rpc_client_stopping _ _ _ _ _ Hget) as Hs0.
  set (ms0' := run_env (in_flight w) ms0).
  exists (fst (send_message_timeout_then verb id (reply w) ms0')).
  split.
  - f_equal. destruct (reply w) as [r|e]; [done|]. by destruct e.
  - intros Hq. rewrite send_message_timeout_then_keeps_stopping.
    subst ms0'. by rewrite run_env_keeps_stopping.
Qed.

(** ** The retry loop *)

Lemma retried_inv {R : Type} (a : attempt R) :
  retried a = true ->
  reply (att_wire a) = Failed closed_error
  /\ no_stop (in_flight (att_wire a)) = true
  /\ att_known_endpoint a = true
  /\ no_stop (att_asleep a) = true
  /\ att_sleep a = None.
Proof.
  unfold retried. rewrite !andb_true_iff, bool_decide_eq_true.
  intros [[[[H1 H2] H3] H4] H5]. repeat split; try done.
  unfold is_closed in H1. destruct (reply (att_wire a)) as [r|e]; [done|].
  by destruct e.
Qed.

(** After [k] retried attempts the loop stands where it would have started
    with a budget smaller by [k]. *)
Lemma retry_loop_retried_prefix {R : Type} (verb : messaging_verb)
    (id : msg_addr) (timeout nr_retry : Z) (pre rest : list (attempt R)) :
  forall (retry : Z) (sent : nat) (ms : messaging_service),
    _stopping ms = false ->
    forallb retried pre = true ->
    Z.of_nat (length pre) < retry ->
    exists ms' : messaging_service,
      _stopping ms' = false
      /\ retry_loop verb id timeout nr_retry retry (pre ++ rest) sent ms
         = retry_loop verb id timeout nr_retry
             (retry - Z.of_nat (length pre)) rest
             (sent + length pre) ms'.
Proof.
  induction pre as [|a pre IH]; intros retry sent ms Hs Hpre Hlt.
  - exists ms. split; [done|]. cbn. by rewrite Z.sub_0_r, Nat.add_0_r.
  - cbn [forallb] in Hpre. apply andb_true_iff in Hpre as [Ha Hpre].
    destruct (retried_inv a Ha) as (Hrep & Hq1 & Hk & Hq2 & Hsl).
    destruct (send_message_timeout_running verb id timeout (att_wire a) ms Hs)
      as (ms1 & Hsend & Hs1).
    specialize (Hs1 Hq1).
    cbn [length] in Hlt.
    destruct (IH (retry - 1) (S sent) (run_env (att_asleep a) ms1))
      as (ms' & Hs' & Heq).
    + by rewrite run_env_keeps_stopping.
    + done.
    + lia.
    + exists ms'. split; [done|].
      cbn [app retry_loop]. rewrite Hsend, Hrep.
      replace (retry - 1 =? 0) with false by (symmetry; apply Z.eqb_neq; lia).
      rewrite Hs1, Hk, Hsl. cbn [negb]. rewrite Heq.
      cbn [length]. rewrite Nat2Z.inj_succ. f_equal; lia.
Qed.

(** With a budget of 2, a peer that would answer the second attempt but is
    unknown to the gossiper after the first failure gets no second attempt:
    the call fails with [closed_error]. Likewise, when no attempt would
    succeed, the call fails after one attempt, not two. *)
Lemma retry_abandoned_for_forgotten_peer :
  ~ retry_success_claim GOSSIP_ECHO sample_peer 600 2 30 1 7
      forgotten_peer_script (sample_service encrypt_none compress_none false)
  /\ ~ retry_exhaust_claim GOSSIP_ECHO sample_peer 600 2 30
         dead_peer_script (sample_service encrypt_none compress_none false).
Proof.
  split.
  - intros H. destruct H as (ms' & sent & Heq).
    + lia.
    + intros i a Hi Hl. destruct i as [|i]; [|lia].
      cbn in Hl. by injection Hl as <-.
    + eexists. split; reflexivity.
    + vm_compute in Heq. discriminate.
  - intros H. destruct H as (ms' & Heq).
    + reflexivity.
    + intros a Ha. unfold dead_peer_script in Ha.
      repeat (apply elem_of_cons in Ha as [->|Ha]; [reflexivity|]).
      by apply elem_of_nil in Ha.
    + vm_compute in Heq. discriminate.
Qed.

(** C3, as the code has it. Take a call with budget [N >= 1] on a running
    service whose first [k < N] attempts fail with [closed_error] and are
    each retried (after each of them the service is not stopping, the
    gossiper knows the peer, and the sleep is not aborted). If the next
    attempt succeeds, the call returns its response after [k + 1] attempts;
    if it fails with [closed_error] and is the [N]-th, the call fails with
    [closed_error] after exactly [N] attempts; if it fails with
    [timeout_error], the call fails with [timeout_error] at once, after
    [k + 1] attempts. *)
Theorem retry_law :
  forall (R : Type) (verb : messaging_verb) (id : msg_addr)
         (timeout wait N : Z) (pre : list (attempt R)) (a : attempt R)
         (rest : list (attempt R)) (ms : messaging_service),
    1 <= N ->
    _stopping ms = false ->
    forallb retried pre = true ->
    Z.of_nat (length pre) < N ->
    let call :=
      send_message_timeout_and_retry verb id timeout N wait
        (pre ++ a :: rest) ms in
    (forall r : R,
        reply (att_wire a) = Ok r ->
        exists ms' : messaging_service,
          call = Some (ms', Ok r, S (length pre)))
    /\ (reply (att_wire a) = Failed closed_error ->
        Z.of_nat (S (length pre)) = N ->
        exists ms' : messaging_service,
          call = Some (ms', Failed closed_error, Z.to_nat N))
    /\ (reply (att_wire a) = Failed timeout_error ->
        exists ms' : messaging_service,
          call = Some (ms', Failed timeout_error, S (length pre))).
Proof.
  intros R verb id timeout wait N pre a rest ms HN Hs Hpre Hlt call.
  destruct (retry_loop_retried_prefix verb id timeout N pre (a :: rest)
              N 0%nat ms Hs Hpre Hlt) as (ms0 & Hs0 & Heq).
  destruct (send_message_timeout_running verb id timeout (att_wire a) ms0 Hs0)
    as (ms1 & Hsend & _).
  subst call. unfold send_message_timeout_and_retry. rewrite Heq.
  cbn [retry_loop]. rewrite Hsend. cbn [Nat.add].
  split; [|split].
  - intros r ->. by exists ms1.
  - intros -> HkN. exists ms1.
    replace (N - Z.of_nat (length pre) - 1 =? 0) with true
      by (symmetry; apply Z.eqb_eq; lia).
    do 2 f_equal. lia.
  - intros ->. by exists ms1.
Qed.

(** Two retried failures and an answer on the third attempt, budget 3. *)
Lemma retry_law_witness :
  let ms := sample_service encrypt_none compress_none false in
  1 <= 3
  /\ _stopping ms = false
  /\ forallb retried (take 2 third_time_script) = true
  /\ Z.of_nat (length (take 2 third_time_script)) < 3
  /\ exists ms' : messaging_service,
       send_message_timeout_and_retry GOSSIP_ECHO sample_peer 600 3 30
         third_time_script ms
       = Some (ms', Ok 7, 3%nat).
Proof.
  intros ms. split; [lia|]. split; [reflexivity|]. split; [reflexivity|].
  split; [cbn; lia|].
  assert (H1 : 1 <= 3) by lia.
  assert (H3 : Z.of_nat (length (take 2 third_time_script)) < 3)
    by (cbn; lia).
  exact (proj1 (retry_law Z GOSSIP_ECHO sample_peer 600 30 3
                  (take 2 third_time_script)
                  (mk_attempt (mk_wire [] (Ok 7)) true [] None) [] ms
                  H1 eq_refl eq_refl H3) 7 eq_refl).
Defined.

(** ** The dropped-message counters *)

Lemma parallel_for_each_keeps {A X : Type} (g : messaging_service -> X)
    (f : A -> messaging_service -> messaging_service * future) (l : list A) :
  (forall a ms, g (fst (f a ms)) = g ms) ->
  forall ms, g (fst (parallel_for_each f l ms)) = g ms.
Proof.
  intros Hf. induction l as [|a l IH]; intros ms; cbn; [done|].
  specialize (Hf a ms). destruct (f a ms) as [ms1 f1]. cbn in Hf.
  specialize (IH ms1). destruct (parallel_for_each f l ms1) as [ms2 f2].
  cbn in *. by rewrite IH.
Qed.

Lemma stop_server_loop_keeps_dropped (tls : bool) (i : nat)
    (slots : list (option rpc_protocol_server_wrapper))
    (ms : messaging_service) :
  _dropped_messages (fst (stop_server_loop tls i slots ms))
  = _dropped_messages ms.
Proof.
  revert i. induction slots as [|[s|] rest IH]; intros i; cbn; auto.
Qed.

Lemma stop_keeps_dropped (ms : messaging_service) :
  _dropped_messages (fst (stop ms)) = _dropped_messages ms.
Proof.
  unfold stop, stop_nontls_server, stop_tls_server.
  pose proof (stop_server_loop_keeps_dropped false 0
                (_server (set_stopping true ms)) (set_stopping true ms)) as H1.
  destruct (stop_server_loop false 0 _ (set_stopping true ms)) as [ms1 f1].
  pose proof (stop_server_loop_keeps_dropped true 0 (_server_tls ms1) ms1)
    as H2.
  destruct (stop_server_loop true 0 _ ms1) as [ms2 f2].
  assert (H3 : _dropped_messages (fst (stop_client ms2)) = _dropped_messages ms2).
  { unfold stop_client. apply parallel_for_each_keeps.
    intros m ms'. apply parallel_for_each_keeps. by intros c ms''. }
  destruct (stop_client ms2) as [ms3 f3]. cbn in *.
  by rewrite H3, H2, H1.
Qed.

Lemma remove_rpc_client_keeps_dropped (id : msg_addr)
    (ms : messaging_service) :
  _dropped_messages (remove_rpc_client id ms) = _dropped_messages ms.
Proof.
  unfold remove_rpc_client.
  generalize (seq 0 (length (_clients ms))). intros l. revert ms.
  induction l as [|idx l IH]; intros ms; cbn; [done|].
  rewrite IH.
  by destruct (remove_rpc_client_one_frame idx id false ms) as (_ & _ & Hd & _).
Qed.

Lemma get_rpc_client_keeps_dropped (verb : messaging_verb) (id : msg_addr)
    (ms ms' : messaging_service) (c : nat) :
  get_rpc_client verb id ms = Some (ms', c) ->
  _dropped_messages ms' = _dropped_messages ms.
Proof.
  unfold get_rpc_client. destruct (_stopping ms); [discriminate|].
  assert (Hrm : _dropped_messages (remove_error_rpc_client verb id ms)
                = _dropped_messages ms).
  { unfold remove_error_rpc_client.
    by destruct (remove_rpc_client_one_frame (get_rpc_client_idx verb) id
                   true ms) as (_ & _ & Hd & _). }
  destruct (clients_at ms (get_rpc_client_idx verb) !! addr id) as [it|].
  - destruct (negb (client_error ms (rpc_client it.2))).
    + by intros [= <- _].
    + match goal with
      | |- context [clients_at ?m ?i !! ?k] => destruct (clients_at m i !! k)
      end; intros [= <- _]; exact Hrm.
  - match goal with
    | |- context [clients_at ?m ?i !! ?k] => destruct (clients_at m i !! k)
    end; by intros [= <- _].
Qed.

Lemma run_env_action_keeps_dropped (a : env_action)
    (ms : messaging_service) :
  _dropped_messages (run_env_action a ms) = _dropped_messages ms.
Proof.
  destruct a; cbn.
  - unfold set_client_error. by destruct (heap ms !! h).
  - apply stop_keeps_dropped.
  - apply remove_rpc_client_keeps_dropped.
  - reflexivity.
Qed.

(** One event moves the counter of [v] by one when it is the failure of a
    request for [v], and not at all otherwise. *)
Lemma step_dropped (v : messaging_verb) (ev : event)
    (ms : messaging_service) :
  get_dropped_messages (step ev ms) v
  = if sent_and_failed v ev
    then (get_dropped_messages ms v + 1) mod 2 ^ 64
    else get_dropped_messages ms v.
Proof.
  unfold get_dropped_messages. destruct ev as [verb id|verb id f|a]; cbn.
  - unfold send_message_begin. destruct (_stopping ms); [done|].
    destruct (get_rpc_client verb id ms) as [[ms' c]|] eqn:Hget; [|done].
    cbn. by rewrite (get_rpc_client_keeps_dropped _ _ _ _ _ Hget).
  - destruct f as [r|e]; cbn; [by rewrite andb_false_r|].
    rewrite andb_true_r.
    assert (Hinc : _dropped_messages (increment_dropped_messages verb ms) v
                   = if verb_eqb verb v
                     then (_dropped_messages ms v + 1) mod 2 ^ 64
                     else _dropped_messages ms v).
    { cbn. unfold verb_eqb.
      destruct (decide (v = verb)) as [->|Hne].
      - by rewrite bool_decide_eq_true_2.
      - rewrite !bool_decide_eq_false_2; [done| |done]. congruence. }
    destruct e; cbn [fst]; try exact Hinc.
    unfold remove_error_rpc_client.
    destruct (remove_rpc_client_one_frame (get_rpc_client_idx verb) id true
                (increment_dropped_messages verb ms)) as (_ & _ & Hd & _).
    rewrite Hd. exact Hinc.
  - by rewrite run_env_action_keeps_dropped.
Qed.

Lemma run_dropped (v : messaging_verb) (tr : list event) :
  forall ms : messaging_service,
    0 <= get_dropped_messages ms v < 2 ^ 64 ->
    get_dropped_messages (run tr ms) v
    = (get_dropped_messages ms v + Z.of_nat (failed_requests v tr)) mod 2 ^ 64.
Proof.
  induction tr as [|ev tr IH]; intros ms Hr.
  - cbn. rewrite Z.add_0_r. symmetry. by apply Z.mod_small.
  - change (run (ev :: tr) ms) with (run tr (step ev ms)).
    pose proof (step_dropped v ev ms) as Hstep.
    cbn [failed_requests]. rewrite IH.
    + rewrite Hstep. destruct (sent_and_failed v ev).
      * rewrite Zplus_mod_idemp_l. f_equal. lia.
      * f_equal.
    + rewrite Hstep. destruct (sent_and_failed v ev); [|done].
      apply Z.mod_pos_bound. lia.
Qed.

Lemma start_listen_keeps_dropped (bc : inet_address)
    (ms : messaging_service) :
  _dropped_messages (start_listen bc ms) = _dropped_messages ms.
Proof.
  unfold start_listen.
  repeat match goal with
         | |- context [if ?b then _ else _] => destruct b
         end; reflexivity.
Qed.

Lemma new_messaging_service_dropped (bc ip_ : inet_address) (port : Z)
    (ew : encrypt_what) (cw : compress_what) (ssl_port : Z)
    (credentials : credentials_ptr) (sltba listen_now : bool)
    (v : messaging_verb) :
  get_dropped_messages
    (new_messaging_service bc ip_ port ew cw ssl_port credentials sltba
       listen_now) v = 0.
Proof.
  unfold get_dropped_messages, new_messaging_service.
  destruct listen_now; [|reflexivity].
  by rewrite start_listen_keeps_dropped.
Qed.

(** A send entered after [stop()] answers a failed future, and the counter
    of its verb stays at 0: one failed send future, none counted. *)
Lemma refused_send_is_not_counted :
  ~ dropped_claim GOSSIP_ECHO
      [ev_env env_stop; ev_send GOSSIP_ECHO sample_peer]
      (sample_service encrypt_none compress_none false).
Proof.
  intros H. vm_compute in H. discriminate.
Qed.

(** C6, as the code has it. On a service followed from its construction
    through any sequence of events, the counter of a verb [v] is the number
    of requests for [v] that were handed to the transport and whose future
    failed, modulo 2^64. Each such failure adds one to it (wrapping at
    2^64), no other event changes it (a send refused because the service is
    stopping is not counted), and so the counter never decreases short of
    the wrap at 2^64 - 1. *)
Theorem dropped_counts_failed_requests :
  forall (v : messaging_verb) (bc ip_ : inet_address) (port : Z)
         (ew : encrypt_what) (cw : compress_what) (ssl_port : Z)
         (credentials : credentials_ptr) (sltba listen_now : bool)
         (tr : list event) (ev : event),
    let ms :=
      run tr (new_messaging_service bc ip_ port ew cw ssl_port credentials
                sltba listen_now) in
    get_dropped_messages ms v = Z.of_nat (failed_requests v tr) mod 2 ^ 64
    /\ get_dropped_messages (step ev ms) v
       = (if sent_and_failed v ev
          then (get_dropped_messages ms v + 1) mod 2 ^ 64
          else get_dropped_messages ms v)
    /\ (get_dropped_messages ms v <= get_dropped_messages (step ev ms) v
        \/ get_dropped_messages ms v = uint64_max).
Proof.
  intros v bc ip_ port ew cw ssl_port credentials sltba listen_now tr ev ms.
  assert (H0 : get_dropped_messages ms v
               = Z.of_nat (failed_requests v tr) mod 2 ^ 64).
  { subst ms. rewrite run_dropped.
    - by rewrite new_messaging_service_dropped.
    - rewrite new_messaging_service_dropped. lia. }
  split; [exact H0|]. split; [apply step_dropped|].
  rewrite step_dropped.
  assert (Hr : 0 <= get_dropped_messages ms v < 2 ^ 64).
  { rewrite H0. apply Z.mod_pos_bound. lia. }
  destruct (sent_and_failed v ev); [|left; lia].
  destruct (decide (get_dropped_messages ms v = uint64_max)) as [Hm|Hm];
    [by right|left].
  unfold uint64_max in Hm. rewrite Z.mod_small; lia.
Qed.

(** ** How the cache operations change the tables *)

Lemma clients_at_insert (ms : messaging_service) (idx idx' : nat)
    (m' : clients_map) :
  clients_at (set_clients (<[idx := m']> (_clients ms)) ms) idx'
  = if decide (idx' = idx /\ (idx < length (_clients ms))%nat)
    then m' else clients_at ms idx'.
Proof.
  unfold clients_at. cbn. destruct (decide _) as [[-> Hlt]|Hn].
  - by rewrite list_lookup_insert_eq.
  - destruct (decide (idx' = idx)) as [->|Hne].
    + rewrite list_insert_ge; [done|]. apply Nat.nlt_ge. intros H. by apply Hn.
    + by rewrite list_lookup_insert_ne.
Qed.

Lemma clients_at_Some_lt (ms : messaging_service) (idx : nat) (k : Z)
    (it : msg_addr * shard_info) :
  clients_at ms idx !! k = Some it -> (idx < length (_clients ms))%nat.
Proof.
  intros H. destruct (clients_at_lookup_Some _ _ _ _ H) as (m & Hm & _).
  by eapply lookup_lt_Some.
Qed.

(** [remove_rpc_client_one] either does nothing, or erases the one entry
    under the address of [id] in table [idx] and stops its client. *)
Lemma remove_rpc_client_one_effect (idx : nat) (id : msg_addr)
    (dead_only : bool) (ms : messaging_service) :
  let ms' := remove_rpc_client_one idx id dead_only ms in
  ms' = ms
  \/ exists it : msg_addr * shard_info,
       _stopping ms = false
       /\ clients_at ms idx !! addr id = Some it
       /\ negb dead_only || client_error ms (rpc_client it.2) = true
       /\ (forall (idx' : nat) (k : Z),
             clients_at ms' idx' !! k
             = if decide (idx' = idx /\ k = addr id) then None
               else clients_at ms idx' !! k)
       /\ stop_calls ms' = client_stop (rpc_client it.2) :: stop_calls ms
       /\ heap ms' = heap ms
       /\ _stopping ms' = false
       /\ length (_clients ms') = length (_clients ms).
Proof.
  unfold remove_rpc_client_one.
  destruct (_stopping ms) eqn:Hs; [by left|].
  destruct (clients_at ms idx !! addr id) as [it|] eqn:Hit; [|by left].
  destruct (negb dead_only || client_error ms (rpc_client it.2)) eqn:Hd;
    [|by left].
  right. exists it. split; [done|]. split; [done|]. split; [done|].
  pose proof (clients_at_Some_lt _ _ _ _ Hit) as Hlt.
  split; [|cbn; rewrite ?length_insert; by rewrite ?Hs].
  intros idx' k.
  change (clients_at
            (set_clients (<[idx := delete (addr id) (clients_at ms idx)]> (_clients ms)) ms)
            idx' !! k
          = if decide (idx' = idx /\ k = addr id) then None
            else clients_at ms idx' !! k).
  rewrite clients_at_insert.
  destruct (decide (idx' = idx /\ (idx < length (_clients ms))%nat))
    as [[-> _]|Hn].
  - destruct (decide (k = addr id)) as [->|Hk].
    + rewrite lookup_delete_eq. by rewrite decide_True.
    + rewrite lookup_delete_ne by done. rewrite decide_False; [done|].
      by intros [_ ?].
  - rewrite decide_False; [done|]. intros [-> _]. by apply Hn.
Qed.

(** [get_rpc_client] either answers a cached client that is not in error
    and changes nothing, or allocates a client, after having dropped a
    cached one that was in error, and caches the new one. *)
Lemma get_rpc_client_effect (verb : messaging_verb) (id : msg_addr)
    (ms ms' : messaging_service) (c : nat) :
  get_rpc_client verb id ms = Some (ms', c) ->
  let idx := get_rpc_client_idx verb in
  (ms' = ms
   /\ exists it : msg_addr * shard_info,
        clients_at ms idx !! addr id = Some it
        /\ rpc_client it.2 = c /\ client_error ms c = false)
  \/ (cached_healthy verb id ms = false
      /\ c = length (heap ms)
      /\ heap ms' = heap ms ++ [make_client ms id]
      /\ (forall (idx' : nat) (k : Z),
            clients_at ms' idx' !! k
            = if decide (idx' = idx /\ k = addr id)
              then (if decide (idx < length (_clients ms))%nat
                    then Some (id, mk_shard_info c) else None)
              else clients_at ms idx' !! k)
      /\ (stop_calls ms' = stop_calls ms
          \/ exists it : msg_addr * shard_info,
               clients_at ms idx !! addr id = Some it
               /\ stop_calls ms' = client_stop (rpc_client it.2) :: stop_calls ms)
      /\ _stopping ms' = false
      /\ length (_clients ms') = length (_clients ms)).
Proof.
  intros Hget idx. unfold get_rpc_client in Hget. fold idx in Hget.
  destruct (_stopping ms) eqn:Hs; [discriminate|].
  destruct (clients_at ms idx !! addr id) as [it|] eqn:Hit.
  - destruct (client_error ms (rpc_client it.2)) eqn:He; cbn [negb] in Hget.
    + (* the cached client is in error: it is dropped, a new one is made *)
      right. unfold remove_error_rpc_client in Hget. fold idx in Hget.
      destruct (remove_rpc_client_one_frame idx id true ms)
        as (Hh & Hst & _ & Hmk).
      destruct (remove_rpc_client_one_effect idx id true ms)
        as [Hsame|(it' & _ & Hit' & _ & Htab & Hstop & _ & _ & Hlen)].
      { exfalso. unfold remove_rpc_client_one in Hsame.
        rewrite Hs, Hit, He in Hsame. cbn in Hsame.
        apply (f_equal stop_calls) in Hsame. cbn in Hsame.
        apply (f_equal length) in Hsame. cbn in Hsame. lia. }
      set (ms1 := remove_rpc_client_one idx id true ms) in *.
      assert (Hnone : clients_at ms1 idx !! addr id = None).
      { rewrite Htab. by rewrite decide_True. }
      change (clients_at (set_heap (heap ms1 ++ [make_client ms1 id]) ms1) idx)
        with (clients_at ms1 idx) in Hget.
      rewrite Hnone in Hget. injection Hget as <- <-.
      pose proof (clients_at_Some_lt _ _ _ _ Hit) as Hlt.
      split; [unfold cached_healthy; fold idx; by rewrite Hit, He|].
      split; [by rewrite Hh|].
      split; [change (heap ms1 ++ [make_client ms1 id]
                      = heap ms ++ [make_client ms id]); by rewrite Hh, Hmk|].
      split; [|split; [|split]].
      * intros idx' k.
        change (clients_at
                  (set_clients
                     (<[idx := <[addr id := (id, mk_shard_info (length (heap ms1)))]>
                                 (clients_at ms1 idx)]> (_clients ms1))
                     ms1) idx' !! k
                = if decide (idx' = idx /\ k = addr id)
                  then (if decide (idx < length (_clients ms))%nat
                        then Some (id, mk_shard_info (length (heap ms1)))
                        else None)
                  else clients_at ms idx' !! k).
        rewrite clients_at_insert, Hlen.
        destruct (decide (idx' = idx /\ (idx < length (_clients ms))%nat))
          as [[-> _]|Hn].
        -- destruct (decide (k = addr id)) as [->|Hk].
           ++ rewrite lookup_insert_eq, decide_True by done.
              by rewrite decide_True.
           ++ rewrite lookup_insert_ne by done. rewrite Htab.
              rewrite !decide_False; [done| |]; by intros [_ ?].
        -- rewrite Htab. rewrite !decide_False; [done| |];
             intros [-> _]; by apply Hn.
      * right. exists it. rewrite Hit in Hit'. injection Hit' as <-.
        split; [done|]. exact Hstop.
      * cbn. by rewrite Hst.
      * cbn. rewrite length_insert. exact Hlen.
    + injection Hget as <- <-. left. split; [done|]. by exists it.
  - right.
    change (clients_at (set_heap (heap ms ++ [make_client ms id]) ms) idx)
      with (clients_at ms idx) in Hget.
    rewrite Hit in Hget. injection Hget as <- <-.
    split; [unfold cached_healthy; fold idx; by rewrite Hit|].
    split; [done|]. split; [done|]. split; [|split; [|split]].
    + intros idx' k.
      change (clients_at
                (set_clients
                   (<[idx := <[addr id := (id, mk_shard_info (length (heap ms)))]>
                               (clients_at ms idx)]> (_clients ms))
                   ms) idx' !! k
              = if decide (idx' = idx /\ k = addr id)
                then (if decide (idx < length (_clients ms))%nat
                      then Some (id, mk_shard_info (length (heap ms)))
                      else None)
                else clients_at ms idx' !! k).
      rewrite clients_at_insert.
      destruct (decide (idx' = idx /\ (idx < length (_clients ms))%nat))
        as [[-> Hlt]|Hn].
      * destruct (decide (k = addr id)) as [->|Hk].
        -- rewrite lookup_insert_eq, decide_True by done.
           by rewrite decide_True.
        -- rewrite lookup_insert_ne by done.
           rewrite decide_False; [done|]. by intros [_ ?].
      * destruct (decide (idx' = idx /\ k = addr id)) as [[Hi Hk]|Hn2];
          [|done].
        rewrite Hi, Hk. rewrite decide_False; [exact Hit|].
        intros Hlt. by apply Hn.
    + by left.
    + cbn. exact Hs.
    + cbn. by rewrite length_insert.
Qed.

(** ** What [stop] does to the state *)

Lemma set_stop_calls_id (ms : messaging_service) :
  set_stop_calls (stop_calls ms) ms = ms.
Proof. by destruct ms. Qed.

Lemma parallel_for_each_stops {A : Type}
    (f : A -> messaging_service -> messaging_service * future)
    (g : A -> future) (l : list A) :
  (forall a ms,
      f a ms = (set_stop_calls (rev (g a) ++ stop_calls ms) ms, g a)) ->
  forall ms,
    parallel_for_each f l ms
    = (set_stop_calls (rev (concat (map g l)) ++ stop_calls ms) ms,
       concat (map g l)).
Proof.
  intros Hf. induction l as [|a l IH]; intros ms.
  - cbn. by rewrite set_stop_calls_id.
  - cbn [parallel_for_each map concat]. rewrite Hf, IH.
    rewrite rev_app_distr, <- app_assoc. reflexivity.
Qed.

Lemma stop_server_loop_stops (tls : bool)
    (slots : list (option rpc_protocol_server_wrapper)) :
  forall (i : nat) (ms : messaging_service),
    stop_server_loop tls i slots ms
    = (set_stop_calls (rev (server_stops tls i slots) ++ stop_calls ms) ms,
       server_stops tls i slots).
Proof.
  induction slots as [|[s|] rest IH]; intros i ms; cbn.
  - by rewrite set_stop_calls_id.
  - reflexivity.
  - apply IH.
Qed.

Lemma stop_client_stops (ms : messaging_service) :
  stop_client ms
  = (set_stop_calls (rev (client_stops ms) ++ stop_calls ms) ms,
     client_stops ms).
Proof.
  unfold stop_client, client_stops.
  apply (parallel_for_each_stops _ table_stops). intros m ms'.
  unfold table_stops.
  rewrite (parallel_for_each_stops _
             (fun c : Z * (msg_addr * shard_info) =>
                [client_stop (rpc_client (snd (snd c)))])).
  - assert (Hc : forall l : list (Z * (msg_addr * shard_info)),
               concat (map (fun c => [client_stop (rpc_client (snd (snd c)))]) l)
               = map (fun c => client_stop (rpc_client (snd (snd c)))) l).
    { induction l as [|c l IHl]; cbn; [done|]. by rewrite IHl. }
    by rewrite Hc.
  - intros c ms''. reflexivity.
Qed.

(** [stop] in one equation: the flag is set, the stop calls are recorded,
    nothing else changes, and the future waits for exactly those calls. *)
Lemma stop_effect (ms : messaging_service) :
  let fut :=
    server_stops false 0 (_server ms) ++ server_stops true 0 (_server_tls ms)
    ++ client_stops ms in
  stop ms
  = (set_stop_calls (rev fut ++ stop_calls ms) (set_stopping true ms), fut).
Proof.
  unfold stop, stop_nontls_server, stop_tls_server.
  rewrite stop_server_loop_stops. cbn [_server set_stopping].
  rewrite stop_server_loop_stops. cbn [_server_tls set_stop_calls].
  rewrite stop_client_stops. unfold when_all. cbn.
  rewrite app_nil_r, !rev_app_distr, <- !app_assoc. reflexivity.
Qed.

Lemma server_stops_no_client (tls : bool)
    (slots : list (option rpc_protocol_server_wrapper)) (i h : nat) :
  client_stop h ∉ server_stops tls i slots.
Proof.
  revert i. induction slots as [|[s|] rest IH]; intros i; cbn.
  - apply not_elem_of_nil.
  - intros H. apply list_elem_of_singleton in H. discriminate.
  - apply IH.
Qed.

Lemma elem_of_client_stops (ms : messaging_service) (h : nat) :
  client_stop h ∈ client_stops ms
  <-> exists (idx : nat) (k : Z) (it : msg_addr * shard_info),
        clients_at ms idx !! k = Some it /\ rpc_client (snd it) = h.
Proof.
  unfold client_stops. rewrite list_elem_of_In, in_concat. split.
  - intros (l & Hl & Hh). apply in_map_iff in Hl as (m & <- & Hm).
    apply list_elem_of_In, list_elem_of_lookup in Hm as (idx & Hidx).
    unfold table_stops in Hh.
    apply in_map_iff in Hh as ([k it] & Heq & Hin).
    apply list_elem_of_In, elem_of_map_to_list in Hin. injection Heq as <-.
    exists idx, k, it. split; [|done]. unfold clients_at. by rewrite Hidx.
  - intros (idx & k & it & Hit & <-).
    destruct (clients_at_lookup_Some _ _ _ _ Hit) as (m & Hm & Hk).
    exists (table_stops m). split.
    + apply in_map_iff. exists m. split; [done|].
      apply list_elem_of_In, list_elem_of_lookup. by exists idx.
    + unfold table_stops. apply in_map_iff. exists (k, it).
      split; [done|]. by apply list_elem_of_In, elem_of_map_to_list.
Qed.

(** ** The cache stays sound *)

Lemma cache_ok_remove_rpc_client_one (idx : nat) (id : msg_addr)
    (dead_only : bool) (ms : messaging_service) :
  cache_ok ms -> cache_ok (remove_rpc_client_one idx id dead_only ms).
Proof.
  intros H.
  destruct (remove_rpc_client_one_effect idx id dead_only ms)
    as [->|(it & Hs & Hit & _ & Htab & Hstop & Hh & Hs' & _)];
    [exact H|].
  destruct H as (I1 & I2 & I4 & I3).
  set (ms' := remove_rpc_client_one idx id dead_only ms) in *.
  assert (Hsub : forall idx' (k : Z) it',
             clients_at ms' idx' !! k = Some it' ->
             clients_at ms idx' !! k = Some it'
             /\ ~ (idx' = idx /\ k = addr id)).
  { intros idx' k it' H. rewrite Htab in H.
    destruct (decide (idx' = idx /\ k = addr id)); [discriminate|done]. }
  split; [|split; [|split]].
  - intros idx' k it' H. apply Hsub in H as [H _]. rewrite Hh. by eapply I1.
  - intros idx1 idx2 k1 k2 it1 it2 H1 H2 Heq.
    apply Hsub in H1 as [H1 _]. apply Hsub in H2 as [H2 _]. by eapply I2.
  - intros h Hin. rewrite Hstop in Hin. rewrite Hh.
    apply elem_of_cons in Hin as [Heq|Hin]; [|by apply I4].
    injection Heq as ->. by apply (I1 _ _ _ Hit).
  - intros _ idx' k it' H Hin. apply Hsub in H as [H Hne].
    rewrite Hstop in Hin. apply elem_of_cons in Hin as [Heq|Hin].
    + injection Heq as Heq. apply Hne. by eapply I2.
    + by apply (I3 Hs _ _ _ H).
Qed.

Lemma cache_ok_remove_error_rpc_client (verb : messaging_verb)
    (id : msg_addr) (ms : messaging_service) :
  cache_ok ms -> cache_ok (remove_error_rpc_client verb id ms).
Proof. apply cache_ok_remove_rpc_client_one. Qed.

Lemma cache_ok_remove_rpc_client (id : msg_addr) (ms : messaging_service) :
  cache_ok ms -> cache_ok (remove_rpc_client id ms).
Proof.
  unfold remove_rpc_client.
  generalize (seq 0 (length (_clients ms))). intros l. revert ms.
  induction l as [|idx l IH]; intros ms H; cbn; [done|].
  apply IH. by apply cache_ok_remove_rpc_client_one.
Qed.

Lemma cache_ok_get_rpc_client (verb : messaging_verb) (id : msg_addr)
    (ms ms' : messaging_service) (c : nat) :
  get_rpc_client verb id ms = Some (ms', c) -> cache_ok ms -> cache_ok ms'.
Proof.
  intros Hget H.
  assert (Hs : _stopping ms = false).
  { unfold get_rpc_client in Hget. by destruct (_stopping ms). }
  destruct (get_rpc_client_effect _ _ _ _ _ Hget)
    as [[-> _]|(_ & Hc & Hheap & Htab & Hstop & _ & _)]; [exact H|].
  destruct H as (I1 & I2 & I4 & I3).
  set (idx := get_rpc_client_idx verb) in *.
  assert (Hlen : length (heap ms') = S (length (heap ms))).
  { rewrite Hheap, length_app. cbn. lia. }
  assert (Hent : forall idx' (k : Z) it',
             clients_at ms' idx' !! k = Some it' ->
             (idx' = idx /\ k = addr id /\ it' = (id, mk_shard_info c))
             \/ (~ (idx' = idx /\ k = addr id)
                 /\ clients_at ms idx' !! k = Some it')).
  { intros idx' k it' H. rewrite Htab in H.
    destruct (decide (idx' = idx /\ k = addr id)) as [[-> ->]|Hne].
    - left. destruct (decide (idx < length (_clients ms))%nat);
        [|discriminate]. by injection H as <-.
    - by right. }
  assert (Hst : forall h, client_stop h ∈ stop_calls ms' ->
             client_stop h ∈ stop_calls ms
             \/ exists it, clients_at ms idx !! addr id = Some it
                           /\ rpc_client it.2 = h).
  { intros h Hin. destruct Hstop as [Hsc|(it & Hit & Hsc)];
      rewrite Hsc in Hin; [by left|].
    apply elem_of_cons in Hin as [Heq|Hin]; [|by left].
    injection Heq as ->. right. by exists it. }
  assert (Hold : forall h, client_stop h ∈ stop_calls ms' ->
             (h < length (heap ms))%nat).
  { intros h Hin. destruct (Hst h Hin) as [Hin'|(it & Hit & <-)].
    - by apply I4.
    - by apply (I1 _ _ _ Hit). }
  split; [|split; [|split]].
  - intros idx' k it' H. rewrite Hlen.
    destruct (Hent _ _ _ H) as [(-> & -> & ->)|[_ H']].
    + cbn. split; [lia|done].
    + destruct (I1 _ _ _ H') as [Hlt Hk]. split; [lia|done].
  - intros idx1 idx2 k1 k2 it1 it2 H1 H2 Heq.
    destruct (Hent _ _ _ H1) as [(-> & -> & ->)|[_ H1']];
      destruct (Hent _ _ _ H2) as [(-> & -> & ->)|[_ H2']].
    + done.
    + exfalso. destruct (I1 _ _ _ H2') as [Hlt _]. cbn in Heq. lia.
    + exfalso. destruct (I1 _ _ _ H1') as [Hlt _]. cbn in Heq. lia.
    + by eapply I2.
  - intros h Hin. rewrite Hlen. specialize (Hold h Hin). lia.
  - intros _ idx' k it' H Hin.
    destruct (Hent _ _ _ H) as [(-> & -> & ->)|[Hne H']].
    + cbn in Hin. specialize (Hold _ Hin). lia.
    + destruct (Hst _ Hin) as [Hin'|(it & Hit & Heq)].
      * by apply (I3 Hs _ _ _ H').
      * apply Hne. by eapply I2.
Qed.

Lemma cache_ok_set_client_error (h : nat) (ms : messaging_service) :
  cache_ok ms -> cache_ok (set_client_error h ms).
Proof.
  intros H. unfold set_client_error.
  destruct (heap ms !! h) as [c|]; [|exact H].
  destruct H as (I1 & I2 & I4 & I3).
  split; [|split; [|split]].
  - intros idx k it H. cbn. rewrite length_insert. by apply (I1 idx).
  - exact I2.
  - intros h' Hin. cbn. rewrite length_insert. by apply I4.
  - exact I3.
Qed.

Lemma cache_ok_stop (ms : messaging_service) :
  cache_ok ms -> cache_ok (fst (stop ms)).
Proof.
  intros (I1 & I2 & I4 & I3). rewrite stop_effect. cbn [fst].
  split; [|split; [|split]].
  - exact I1.
  - exact I2.
  - intros h Hin. cbn in Hin. change (h < length (heap ms))%nat.
    apply elem_of_app in Hin as [Hin|Hin]; [|by apply I4].
    apply list_elem_of_In, in_rev, list_elem_of_In in Hin.
    apply elem_of_app in Hin as [Hin|Hin];
      [by apply server_stops_no_client in Hin|].
    apply elem_of_app in Hin as [Hin|Hin];
      [by apply server_stops_no_client in Hin|].
    apply elem_of_client_stops in Hin as (idx & k & it & Hit & <-).
    by apply (I1 _ _ _ Hit).
  - intros Hs. discriminate Hs.
Qed.

Lemma cache_ok_start_listen (bc : inet_address) (ms : messaging_service) :
  cache_ok ms -> cache_ok (start_listen bc ms).
Proof.
  intros H. unfold start_listen.
  repeat match goal with
         | |- context [if ?b then _ else _] => destruct b
         end; exact H.
Qed.

Lemma cache_ok_new (bc ip_ : inet_address) (port : Z) (ew : encrypt_what)
    (cw : compress_what) (ssl_port : Z) (credentials : credentials_ptr)
    (sltba listen_now : bool) :
  cache_ok (new_messaging_service bc ip_ port ew cw ssl_port credentials
              sltba listen_now).
Proof.
  unfold new_messaging_service.
  assert (H0 : cache_ok
                 (mk_ms ip_ port ssl_port ew cw sltba credentials
                    [None; None] [None; None] [∅; ∅] (fun _ => 0) false ∅
                    [] [])).
  { assert (Hempty : forall idx (k : Z) (it : msg_addr * shard_info),
               clients_at
                 (mk_ms ip_ port ssl_port ew cw sltba credentials
                    [None; None] [None; None] [∅; ∅] (fun _ => 0) false ∅
                    [] []) idx !! k = Some it -> False).
    { intros idx k it. unfold clients_at. cbn.
      destruct idx as [|[|idx]]; cbn; rewrite ?lookup_empty; discriminate. }
    split; [|split; [|split]].
    - intros idx k it H. by apply Hempty in H.
    - intros idx1 idx2 k1 k2 it1 it2 H. by apply Hempty in H.
    - intros h Hin. cbn in Hin. by apply elem_of_nil in Hin.
    - intros _ idx k it H. by apply Hempty in H. }
  destruct listen_now; [by apply cache_ok_start_listen|done].
Qed.

Lemma cache_ok_step (ev : event) (ms : messaging_service) :
  cache_ok ms -> cache_ok (step ev ms).
Proof.
  intros H. destruct ev as [verb id|verb id f|a]; cbn.
  - unfold send_message_begin. destruct (_stopping ms); [done|].
    destruct (get_rpc_client verb id ms) as [[ms' c]|] eqn:Hget; [|done].
    by eapply cache_ok_get_rpc_client.
  - destruct f as [r|e]; [done|].
    destruct e; cbn; try exact H.
    by apply cache_ok_remove_error_rpc_client.
  - destruct a; cbn.
    + by apply cache_ok_set_client_error.
    + by apply cache_ok_stop.
    + by apply cache_ok_remove_rpc_client.
    + exact H.
Qed.

Lemma reachable_cache_ok (ms : messaging_service) :
  reachable ms -> cache_ok ms.
Proof.
  induction 1.
  - apply cache_ok_new.
  - by apply cache_ok_start_listen.
  - by apply cache_ok_step.
Qed.

(** ** Reachable states *)

Lemma get_rpc_client_idx_lt_2 (verb : messaging_verb) :
  (get_rpc_client_idx verb < 2)%nat.
Proof. unfold get_rpc_client_idx. destruct (_ || _); lia. Qed.

Lemma remove_rpc_client_one_length (idx : nat) (id : msg_addr)
    (dead_only : bool) (ms : messaging_service) :
  length (_clients (remove_rpc_client_one idx id dead_only ms))
  = length (_clients ms).
Proof.
  destruct (remove_rpc_client_one_effect idx id dead_only ms)
    as [->|(it & _ & _ & _ & _ & _ & _ & _ & Hlen)]; [done|exact Hlen].
Qed.

Lemma remove_rpc_client_length (id : msg_addr) (ms : messaging_service) :
  length (_clients (remove_rpc_client id ms)) = length (_clients ms).
Proof.
  unfold remove_rpc_client.
  generalize (seq 0 (length (_clients ms))). intros l. revert ms.
  induction l as [|idx l IH]; intros ms; cbn; [done|].
  rewrite IH. apply remove_rpc_client_one_length.
Qed.

Lemma step_length (ev : event) (ms : messaging_service) :
  length (_clients (step ev ms)) = length (_clients ms).
Proof.
  destruct ev as [verb id|verb id f|a]; cbn.
  - unfold send_message_begin. destruct (_stopping ms); [done|].
    destruct (get_rpc_client verb id ms) as [[ms' c]|] eqn:Hget; [|done].
    destruct (get_rpc_client_effect _ _ _ _ _ Hget)
      as [[-> _]|(_ & _ & _ & _ & _ & _ & Hlen)]; [done|exact Hlen].
  - destruct f as [r|e]; [done|]. destruct e; cbn; try done.
    apply (remove_rpc_client_one_length _ _ _
             (increment_dropped_messages verb ms)).
  - destruct a; cbn.
    + unfold set_client_error. by destruct (heap ms !! h).
    + by rewrite stop_effect.
    + apply remove_rpc_client_length.
    + done.
Qed.

Lemma start_listen_keeps_clients (bc : inet_address)
    (ms : messaging_service) :
  _clients (start_listen bc ms) = _clients ms
  /\ heap (start_listen bc ms) = heap ms
  /\ stop_calls (start_listen bc ms) = stop_calls ms
  /\ _stopping (start_listen bc ms) = _stopping ms.
Proof.
  unfold start_listen.
  repeat match goal with
         | |- context [if ?b then _ else _] => destruct b
         end; repeat split.
Qed.

Lemma reachable_length (ms : messaging_service) :
  reachable ms -> length (_clients ms) = 2%nat.
Proof.
  induction 1.
  - unfold new_messaging_service. destruct listen_now; [|done].
    by rewrite (proj1 (start_listen_keeps_clients _ _)).
  - by rewrite (proj1 (start_listen_keeps_clients _ _)).
  - by rewrite step_length.
Qed.

Lemma reachable_get_rpc_client (verb : messaging_verb) (id : msg_addr)
    (ms ms' : messaging_service) (c : nat) :
  reachable ms -> get_rpc_client verb id ms = Some (ms', c) -> reachable ms'.
Proof.
  intros Hr Hget.
  assert (Hs : _stopping ms = false).
  { unfold get_rpc_client in Hget. by destruct (_stopping ms). }
  replace ms' with (step (ev_send verb id) ms); [by apply reach_step|].
  cbn. unfold send_message_begin. by rewrite Hs, Hget.
Qed.

(** After a successful [get_rpc_client] on a service with both tables in
    place, the client it answered is cached under the peer's address in the
    table of the verb, and is not in error. *)
Lemma get_rpc_client_cached (verb : messaging_verb) (id : msg_addr)
    (ms ms' : messaging_service) (c : nat) :
  length (_clients ms) = 2%nat ->
  get_rpc_client verb id ms = Some (ms', c) ->
  _stopping ms' = false
  /\ (exists it : msg_addr * shard_info,
        clients_at ms' (get_rpc_client_idx verb) !! addr id = Some it
        /\ rpc_client (snd it) = c)
  /\ client_error ms' c = false.
Proof.
  intros Hlen Hget.
  pose proof (get_rpc_client_stopping _ _ _ _ _ Hget) as Hs'.
  split; [exact Hs'|].
  destruct (get_rpc_client_effect _ _ _ _ _ Hget)
    as [[-> (it & Hit & Hc & He)]|(_ & Hc & Hheap & Htab & _)].
  - split; [by exists it|done].
  - split.
    + exists (id, mk_shard_info c). split; [|done].
      rewrite Htab, decide_True by done.
      by rewrite decide_True
        by (pose proof (get_rpc_client_idx_lt_2 verb); lia).
    + unfold client_error. rewrite Hheap, Hc.
      by rewrite lookup_snoc_length.
Qed.

(** ** Peer identities *)

(** X1. Equality, order and hash of [msg_addr] look at the address alone:
    two identities are equal exactly when their addresses are, whatever the
    cpu ids; equal identities have equal hashes and neither is below the
    other; and [operator<] is a strict order of which exactly one of
    [x < y], [x == y], [y < x] holds. *)
Theorem msg_addr_comparisons_ignore_cpu_id :
  forall (std_hash : Z -> Z) (x y z : msg_addr),
    (msg_addr_eqb x y = true <-> addr x = addr y)
    /\ msg_addr_eqb (mk_msg_addr (addr x) (cpu_id y)) x = true
    /\ (msg_addr_eqb x y = true ->
        msg_addr_hash std_hash x = msg_addr_hash std_hash y
        /\ msg_addr_ltb x y = false /\ msg_addr_ltb y x = false)
    /\ msg_addr_ltb x x = false
    /\ (msg_addr_ltb x y = true -> msg_addr_ltb y z = true ->
        msg_addr_ltb x z = true)
    /\ (msg_addr_ltb x y = false -> msg_addr_ltb y x = false ->
        msg_addr_eqb x y = true)
    /\ (msg_addr_ltb x y = true -> msg_addr_ltb y x = false).
Proof.
  intros std_hash x y z. unfold msg_addr_eqb, msg_addr_ltb, msg_addr_hash.
  cbn [addr].
  assert (Hlt : forall a b : Z, (if a <? b then true else false) = (a <? b))
    by (intros a b; by destruct (a <? b)).
  rewrite !Hlt. rewrite Z.eqb_eq, Z.eqb_refl, !Z.ltb_lt, !Z.ltb_ge.
  repeat split; intros; try lia; by f_equal.
Qed.

Lemma msg_addr_comparisons_ignore_cpu_id_witness :
  msg_addr_eqb (mk_msg_addr 3 0) (mk_msg_addr 3 5) = true
  /\ msg_addr_hash (fun a => a) (mk_msg_addr 3 0)
     = msg_addr_hash (fun a => a) (mk_msg_addr 3 5)
  /\ msg_addr_ltb (mk_msg_addr 3 0) (mk_msg_addr 3 5) = false.
Proof.
  split; [reflexivity|].
  pose proof (msg_addr_comparisons_ignore_cpu_id (fun a => a)
                (mk_msg_addr 3 0) (mk_msg_addr 3 5) (mk_msg_addr 3 0))
    as (_ & _ & H & _).
  destruct (H eq_refl) as (H1 & H2 & _). split; [exact H1 | exact H2].
Defined.

(** ** What a caller gets from the cache *)

(** X2. On a service in any state it can reach, a client answered by
    [get_rpc_client] refers to an existing client object that is not in
    error, on which [stop()] has never been called, and that is cached
    under the peer's address in the table of the verb. *)
Theorem cached_client_is_usable :
  forall (verb : messaging_verb) (id : msg_addr)
         (ms ms' : messaging_service) (c : nat),
    reachable ms ->
    get_rpc_client verb id ms = Some (ms', c) ->
    (exists obj : rpc_protocol_client_wrapper,
        heap ms' !! c = Some obj /\ c_error obj = false)
    /\ (client_stop c ∉ stop_calls ms')
    /\ (exists it : msg_addr * shard_info,
          clients_at ms' (get_rpc_client_idx verb) !! addr id = Some it
          /\ rpc_client (snd it) = c /\ addr (fst it) = addr id).
Proof.
  intros verb id ms ms' c Hr Hget.
  pose proof (reachable_get_rpc_client _ _ _ _ _ Hr Hget) as Hr'.
  destruct (reachable_cache_ok _ Hr') as (I1 & _ & _ & I3).
  destruct (get_rpc_client_cached _ _ _ _ _ (reachable_length _ Hr) Hget)
    as (Hs' & (it & Hit & Hc) & He).
  destruct (I1 _ _ _ Hit) as [Hlt Hk]. rewrite Hc in Hlt.
  split; [|split].
  - destruct (lookup_lt_is_Some_2 _ _ Hlt) as [obj Hobj].
    exists obj. split; [done|]. unfold client_error in He.
    by rewrite Hobj in He.
  - rewrite <- Hc. by apply (I3 Hs' _ _ _ Hit).
  - by exists it.
Qed.

Lemma cached_client_is_usable_witness :
  let ms := sample_service encrypt_none compress_none false in
  reachable ms
  /\ get_rpc_client GOSSIP_ECHO sample_peer ms = Some (connected_service, 0%nat)
  /\ (exists obj : rpc_protocol_client_wrapper,
         heap connected_service !! 0%nat = Some obj /\ c_error obj = false)
  /\ (client_stop 0 ∉ stop_calls connected_service).
Proof.
  intros ms.
  assert (Hr : reachable ms) by apply reach_new.
  assert (Hget : get_rpc_client GOSSIP_ECHO sample_peer ms
                 = Some (connected_service, 0%nat)) by reflexivity.
  split; [exact Hr|]. split; [exact Hget|].
  destruct (cached_client_is_usable GOSSIP_ECHO sample_peer ms
              connected_service 0 Hr Hget) as (H1 & H2 & _).
  split; [exact H1 | exact H2].
Defined.

(** X3. On a reachable service, two lookups in a row that differ in the
    verb class or in the peer's address are answered with different
    clients: no connection serves two classes or two peers. *)
Theorem different_key_different_client :
  forall (verb1 verb2 : messaging_verb) (id1 id2 : msg_addr)
         (ms ms1 ms2 : messaging_service) (c1 c2 : nat),
    reachable ms ->
    get_rpc_client verb1 id1 ms = Some (ms1, c1) ->
    get_rpc_client verb2 id2 ms1 = Some (ms2, c2) ->
    get_rpc_client_idx verb1 <> get_rpc_client_idx verb2
    \/ addr id1 <> addr id2 ->
    c1 <> c2.
Proof.
  intros verb1 verb2 id1 id2 ms ms1 ms2 c1 c2 Hr Hget1 Hget2 Hne Heq.
  pose proof (reachable_get_rpc_client _ _ _ _ _ Hr Hget1) as Hr1.
  destruct (reachable_cache_ok _ Hr1) as (I1 & I2 & _ & _).
  destruct (get_rpc_client_cached _ _ _ _ _ (reachable_length _ Hr) Hget1)
    as (_ & (it1 & Hit1 & Hc1) & _).
  destruct (get_rpc_client_effect _ _ _ _ _ Hget2)
    as [[_ (it2 & Hit2 & Hc2 & _)]|(_ & Hc2 & _)].
  - destruct (I2 _ _ _ _ _ _ Hit1 Hit2) as [Hi Hk]; [congruence|].
    destruct Hne as [Hne|Hne]; by apply Hne.
  - destruct (I1 _ _ _ Hit1) as [Hlt _]. lia.
Qed.

Lemma different_key_different_client_witness :
  let ms := sample_service encrypt_none compress_none false in
  reachable ms
  /\ get_rpc_client GOSSIP_ECHO sample_peer ms = Some (connected_service, 0%nat)
  /\ (exists ms2 : messaging_service,
         get_rpc_client GOSSIP_DIGEST_ACK sample_peer connected_service
         = Some (ms2, 1%nat))
  /\ get_rpc_client_idx GOSSIP_ECHO <> get_rpc_client_idx GOSSIP_DIGEST_ACK
  /\ 0%nat <> 1%nat.
Proof.
  intros ms.
  assert (Hr : reachable ms) by apply reach_new.
  assert (Hget1 : get_rpc_client GOSSIP_ECHO sample_peer ms
                  = Some (connected_service, 0%nat)) by reflexivity.
  destruct (get_rpc_client GOSSIP_DIGEST_ACK sample_peer connected_service)
    as [[ms2 c2]|] eqn:Hget2; [|vm_compute in Hget2; discriminate].
  assert (Hc2 : c2 = 1%nat) by (vm_compute in Hget2; congruence).
  subst c2.
  assert (Hne : get_rpc_client_idx GOSSIP_ECHO
                <> get_rpc_client_idx GOSSIP_DIGEST_ACK) by discriminate.
  split; [exact Hr|]. split; [exact Hget1|]. split; [by exists ms2|].
  split; [exact Hne|].
  exact (different_key_different_client GOSSIP_ECHO GOSSIP_DIGEST_ACK
           sample_peer sample_peer ms connected_service ms2 0 1
           Hr Hget1 Hget2 (or_introl Hne)).
Defined.

(** X4. A lookup that follows a successful one for the same address and
    the same verb class, under whichever cpu id and verb of that class, is
    answered with the same client and leaves the service as it is. *)
Theorem repeated_lookup_reuses_client :
  forall (verb verb' : messaging_verb) (id id' : msg_addr)
         (ms ms1 : messaging_service) (c : nat),
    length (_clients ms) = 2%nat ->
    get_rpc_client verb id ms = Some (ms1, c) ->
    addr id' = addr id ->
    get_rpc_client_idx verb' = get_rpc_client_idx verb ->
    get_rpc_client verb' id' ms1 = Some (ms1, c).
Proof.
  intros verb verb' id id' ms ms1 c Hlen Hget Haddr Hidx.
  destruct (get_rpc_client_cached _ _ _ _ _ Hlen Hget)
    as (Hs & (it & Hit & Hc) & He).
  unfold get_rpc_client. rewrite Hs, Hidx, Haddr.
  unfold inet_address in *. rewrite Hit, Hc, He. reflexivity.
Qed.

Lemma repeated_lookup_reuses_client_witness :
  let ms := sample_service encrypt_none compress_none false in
  length (_clients ms) = 2%nat
  /\ get_rpc_client GOSSIP_ECHO sample_peer ms = Some (connected_service, 0%nat)
  /\ addr (mk_msg_addr 3 9) = addr sample_peer
  /\ get_rpc_client_idx GOSSIP_SHUTDOWN = get_rpc_client_idx GOSSIP_ECHO
  /\ get_rpc_client GOSSIP_SHUTDOWN (mk_msg_addr 3 9) connected_service
     = Some (connected_service, 0%nat).
Proof.
  intros ms. split; [reflexivity|]. split; [reflexivity|].
  split; [reflexivity|]. split; [reflexivity|].
  exact (repeated_lookup_reuses_client GOSSIP_ECHO GOSSIP_SHUTDOWN sample_peer
           (mk_msg_addr 3 9) ms connected_service 0
           eq_refl eq_refl eq_refl eq_refl).
Defined.

(** X5. [get_rpc_client] leaves alone every entry but the one of its peer
    in the table of its verb, every counter, and the fields of every client
    object that existed before the call. The one [stop()] it can call is on
    the client in error that was cached for its peer in that table, which
    it replaces; it stops no other client and no listener. *)
Theorem get_rpc_client_touches_one_entry :
  forall (verb : messaging_verb) (id : msg_addr)
         (ms ms' : messaging_service) (c : nat),
    get_rpc_client verb id ms = Some (ms', c) ->
    (forall (idx' : nat) (k : Z),
        ~ (idx' = get_rpc_client_idx verb /\ k = addr id) ->
        clients_at ms' idx' !! k = clients_at ms idx' !! k)
    /\ _dropped_messages ms' = _dropped_messages ms
    /\ (forall (h : nat) (obj : rpc_protocol_client_wrapper),
          heap ms !! h = Some obj -> heap ms' !! h = Some obj)
    /\ (stop_calls ms' = stop_calls ms
        \/ exists it : msg_addr * shard_info,
             clients_at ms (get_rpc_client_idx verb) !! addr id = Some it
             /\ client_error ms (rpc_client (snd it)) = true
             /\ stop_calls ms'
                = client_stop (rpc_client (snd it)) :: stop_calls ms).
Proof.
  intros verb id ms ms' c Hget.
  split; [|split; [|split]].
  - intros idx' k Hne.
    destruct (get_rpc_client_effect _ _ _ _ _ Hget)
      as [[-> _]|(_ & _ & _ & Htab & _)]; [done|].
    rewrite Htab. by rewrite decide_False.
  - by eapply get_rpc_client_keeps_dropped.
  - intros h obj Hobj.
    destruct (get_rpc_client_effect _ _ _ _ _ Hget)
      as [[-> _]|(_ & _ & Hheap & _)]; [done|].
    rewrite Hheap. by apply lookup_app_l_Some.
  - destruct (get_rpc_client_effect _ _ _ _ _ Hget)
      as [[-> _]|(Hch & _ & _ & _ & [Hsame|(it & Hit & Hstop)] & _)];
      [by left|by left|].
    right. exists it. split; [exact Hit|]. split; [|exact Hstop].
    unfold cached_healthy in Hch. unfold inet_address in *.
    rewrite Hit in Hch. by apply negb_false_iff in Hch.
Qed.

(** A lookup in the other table changes nothing for the peer's cached
    client; a lookup that finds the peer's client broken stops that client
    and no other. *)
Lemma get_rpc_client_touches_one_entry_witness :
  (exists ms2 : messaging_service,
      get_rpc_client GOSSIP_DIGEST_ACK sample_peer connected_service
      = Some (ms2, 1%nat)
      /\ clients_at ms2 1 !! 3 = clients_at connected_service 1 !! 3)
  /\ (exists ms2 : messaging_service,
        get_rpc_client GOSSIP_ECHO sample_peer broken_service
        = Some (ms2, 1%nat)
        /\ (stop_calls ms2 = stop_calls broken_service
            \/ exists it : msg_addr * shard_info,
                 clients_at broken_service (get_rpc_client_idx GOSSIP_ECHO)
                   !! addr sample_peer = Some it
                 /\ client_error broken_service (rpc_client (snd it)) = true
                 /\ stop_calls ms2
                    = client_stop (rpc_client (snd it))
                      :: stop_calls broken_service)).
Proof.
  split.
  - destruct (get_rpc_client GOSSIP_DIGEST_ACK sample_peer connected_service)
      as [[ms2 c2]|] eqn:Hget2; [|vm_compute in Hget2; discriminate].
    assert (Hc2 : c2 = 1%nat) by (vm_compute in Hget2; congruence).
    subst c2. exists ms2. split; [reflexivity|].
    apply (proj1 (get_rpc_client_touches_one_entry GOSSIP_DIGEST_ACK
                    sample_peer connected_service ms2 1 Hget2)).
    intros [H _]. discriminate H.
  - destruct (get_rpc_client GOSSIP_ECHO sample_peer broken_service)
      as [[ms2 c2]|] eqn:Hget2; [|vm_compute in Hget2; discriminate].
    assert (Hc2 : c2 = 1%nat) by (vm_compute in Hget2; congruence).
    subst c2. exists ms2. split; [reflexivity|].
    exact (proj2 (proj2 (proj2
             (get_rpc_client_touches_one_entry GOSSIP_ECHO sample_peer
                broken_service ms2 1 Hget2)))).
Defined.

(** ** Removing clients *)

Lemma remove_rpc_client_one_all (idx : nat) (id : msg_addr)
    (ms : messaging_service) :
  _stopping ms = false ->
  let ms' := remove_rpc_client_one idx id false ms in
  (forall (idx' : nat) (k : Z),
      clients_at ms' idx' !! k
      = if decide (idx' = idx /\ k = addr id) then None
        else clients_at ms idx' !! k)
  /\ _stopping ms' = false
  /\ heap ms' = heap ms
  /\ (forall x, x ∈ stop_calls ms -> x ∈ stop_calls ms')
  /\ (forall it : msg_addr * shard_info,
        clients_at ms idx !! addr id = Some it ->
        client_stop (rpc_client (snd it)) ∈ stop_calls ms').
Proof.
  intros Hs ms'.
  destruct (remove_rpc_client_one_effect idx id false ms)
    as [Hsame|(it & _ & Hit & _ & Htab & Hstop & Hh & Hs' & _)].
  - assert (Hnone : clients_at ms idx !! addr id = None).
    { destruct (clients_at ms idx !! addr id) as [it|] eqn:Hit; [|done].
      exfalso. unfold remove_rpc_client_one in Hsame.
      rewrite Hs, Hit in Hsame. cbn in Hsame.
      apply (f_equal stop_calls) in Hsame. cbn in Hsame.
      apply (f_equal length) in Hsame. cbn in Hsame. lia. }
    subst ms'. rewrite Hsame. split; [|split; [|split; [|split]]]; try done.
    + intros idx' k.
      destruct (decide (idx' = idx /\ k = addr id)) as [[-> ->]|]; [|done].
      exact Hnone.
    + intros it Hit. unfold inet_address in *. congruence.
  - subst ms'. split; [exact Htab|]. split; [exact Hs'|]. split; [exact Hh|].
    split.
    + intros x Hx. rewrite Hstop. by apply list_elem_of_further.
    + intros it' Hit'. unfold inet_address in *.
      rewrite Hit in Hit'. injection Hit' as <-.
      rewrite Hstop. apply list_elem_of_here.
Qed.

Lemma remove_rpc_client_fold (id : msg_addr) (l : list nat) :
  forall ms : messaging_service,
    _stopping ms = false ->
    let ms' :=
      foldl (fun acc idx => remove_rpc_client_one idx id false acc) ms l in
    (forall (idx' : nat) (k : Z),
        clients_at ms' idx' !! k
        = if decide (idx' ∈ l /\ k = addr id) then None
          else clients_at ms idx' !! k)
    /\ heap ms' = heap ms
    /\ (forall x, x ∈ stop_calls ms -> x ∈ stop_calls ms')
    /\ (forall (idx : nat) (it : msg_addr * shard_info),
          idx ∈ l -> clients_at ms idx !! addr id = Some it ->
          client_stop (rpc_client (snd it)) ∈ stop_calls ms').
Proof.
  induction l as [|a l IH]; intros ms Hs; cbn [foldl].
  - split; [|split; [|split]]; try done.
    intros idx it H. by apply elem_of_nil in H.
  - destruct (remove_rpc_client_one_all a id ms Hs)
      as (Htab1 & Hs1 & Hh1 & Hmono1 & Hstop1).
    set (ms1 := remove_rpc_client_one a id false ms) in *.
    destruct (IH ms1 Hs1) as (Htab & Hh & Hmono & Hstop).
    split; [|split; [|split]].
    + intros idx' k. rewrite Htab, Htab1.
      destruct (decide (idx' ∈ l /\ k = addr id)) as [[Hin ->]|Hn1].
      * rewrite decide_True; [done|]. split; [|done].
        by apply list_elem_of_further.
      * destruct (decide (idx' = a /\ k = addr id)) as [[-> ->]|Hn2].
        -- rewrite decide_True; [done|]. split; [|done].
           apply list_elem_of_here.
        -- rewrite decide_False; [done|]. intros [Hin ->].
           apply elem_of_cons in Hin as [->|Hin]; [by apply Hn2|by apply Hn1].
    + by rewrite Hh.
    + intros x Hx. by apply Hmono, Hmono1.
    + intros idx it Hin Hit.
      destruct (decide (idx = a)) as [->|Hne].
      * by apply Hmono, Hstop1.
      * apply elem_of_cons in Hin as [->|Hin]; [done|].
        apply (Hstop idx it Hin). rewrite Htab1.
        rewrite decide_False; [done|]. by intros [? _].
Qed.

(** X6. On a running service, [remove_rpc_client] leaves no entry for the
    peer's address in any table, calls [stop()] on every client it had
    cached for that address, and leaves the entries of all other addresses
    and all client objects as they were. *)
Theorem remove_rpc_client_clears_every_table :
  forall (id : msg_addr) (ms : messaging_service),
    _stopping ms = false ->
    let ms' := remove_rpc_client id ms in
    (forall idx : nat, clients_at ms' idx !! addr id = None)
    /\ (forall (idx : nat) (k : Z),
          k <> addr id -> clients_at ms' idx !! k = clients_at ms idx !! k)
    /\ (forall (idx : nat) (it : msg_addr * shard_info),
          clients_at ms idx !! addr id = Some it ->
          client_stop (rpc_client (snd it)) ∈ stop_calls ms')
    /\ heap ms' = heap ms.
Proof.
  intros id ms Hs ms'.
  destruct (remove_rpc_client_fold id (seq 0 (length (_clients ms))) ms Hs)
    as (Htab & Hh & _ & Hstop).
  fold (remove_rpc_client id ms) in Htab, Hh, Hstop. fold ms' in Htab, Hh, Hstop.
  split; [|split; [|split]].
  - intros idx. unfold inet_address in *. rewrite Htab.
    destruct (decide _) as [_|Hn]; [done|].
    destruct (clients_at ms idx !! addr id) as [it|] eqn:Hit; [|done].
    exfalso. apply Hn. split; [|done].
    apply elem_of_seq. pose proof (clients_at_Some_lt _ _ _ _ Hit). lia.
  - intros idx k Hk. rewrite Htab. rewrite decide_False; [done|].
    by intros [_ ?].
  - intros idx it Hit. apply (Hstop idx it); [|done].
    apply elem_of_seq. pose proof (clients_at_Some_lt _ _ _ _ Hit). lia.
  - exact Hh.
Qed.

Lemma remove_rpc_client_clears_every_table_witness :
  _stopping connected_service = false
  /\ clients_at connected_service 1 !! addr sample_peer
     = Some (sample_peer, mk_shard_info 0)
  /\ (forall idx : nat,
         clients_at (remove_rpc_client sample_peer connected_service) idx
           !! addr sample_peer = None)
  /\ client_stop 0
       ∈ stop_calls (remove_rpc_client sample_peer connected_service).
Proof.
  split; [reflexivity|]. split; [reflexivity|].
  destruct (remove_rpc_client_clears_every_table sample_peer
              connected_service eq_refl) as (H1 & _ & H3 & _).
  split; [exact H1|].
  exact (H3 1%nat (sample_peer, mk_shard_info 0) eq_refl).
Defined.

(** X7. [remove_error_rpc_client] never drops a client that is not in
    error: an entry of any table whose client is not in error before the
    call is still there, with the same client, after it. *)
Theorem remove_error_rpc_client_spares_healthy :
  forall (verb : messaging_verb) (id : msg_addr) (ms : messaging_service)
         (idx : nat) (k : Z) (it : msg_addr * shard_info),
    clients_at ms idx !! k = Some it ->
    client_error ms (rpc_client (snd it)) = false ->
    clients_at (remove_error_rpc_client verb id ms) idx !! k = Some it
    /\ client_error (remove_error_rpc_client verb id ms) (rpc_client (snd it))
       = false.
Proof.
  intros verb id ms idx k it Hit He. unfold remove_error_rpc_client.
  destruct (remove_rpc_client_one_effect (get_rpc_client_idx verb) id true ms)
    as [->|(it' & _ & Hit' & Hd & Htab & _ & Hh & _)]; [done|].
  cbn [negb orb] in Hd. split.
  - rewrite Htab.
    destruct (decide (idx = get_rpc_client_idx verb /\ k = addr id))
      as [[-> ->]|]; [|done].
    unfold inet_address in *. rewrite Hit in Hit'. injection Hit' as <-.
    congruence.
  - unfold client_error in *. by rewrite Hh.
Qed.

Lemma remove_error_rpc_client_spares_healthy_witness :
  clients_at connected_service 1 !! 3 = Some (sample_peer, mk_shard_info 0)
  /\ client_error connected_service 0 = false
  /\ clients_at
       (remove_error_rpc_client GOSSIP_ECHO sample_peer connected_service) 1
       !! 3 = Some (sample_peer, mk_shard_info 0).
Proof.
  split; [reflexivity|]. split; [reflexivity|].
  exact (proj1 (remove_error_rpc_client_spares_healthy GOSSIP_ECHO
                  sample_peer connected_service 1 3
                  (sample_peer, mk_shard_info 0) eq_refl eq_refl)).
Defined.

(** ** More on shutdown *)

(** X8. [stop] sets [_stopping], waits for the [stop()] of every cached
    client of every table and of no other client, records each call it
    waits for, and leaves the tables (the stopped clients stay cached), the
    client objects and the counters as they were. *)
Theorem stop_awaits_every_cached_client :
  forall ms : messaging_service,
    _stopping (fst (stop ms)) = true
    /\ (forall h : nat,
          client_stop h ∈ snd (stop ms)
          <-> exists (idx : nat) (k : Z) (it : msg_addr * shard_info),
                clients_at ms idx !! k = Some it /\ rpc_client (snd it) = h)
    /\ (forall x : stoppable,
          x ∈ snd (stop ms) -> x ∈ stop_calls (fst (stop ms)))
    /\ _clients (fst (stop ms)) = _clients ms
    /\ heap (fst (stop ms)) = heap ms
    /\ _dropped_messages (fst (stop ms)) = _dropped_messages ms.
Proof.
  intros ms. rewrite stop_effect. cbn [fst snd].
  split; [reflexivity|]. split; [|split; [|repeat split]].
  - intros h. rewrite <- elem_of_client_stops. rewrite !elem_of_app. split.
    + intros [H|[H|H]]; [by apply server_stops_no_client in H
                        |by apply server_stops_no_client in H|done].
    + intros H. by right; right.
  - intros x Hx. cbn. apply elem_of_app. left.
    by apply list_elem_of_In, in_rev, list_elem_of_In in Hx.
Qed.

Lemma step_when_stopping (ev : event) (ms : messaging_service) :
  _stopping ms = true ->
  _stopping (step ev ms) = true
  /\ _clients (step ev ms) = _clients ms
  /\ length (heap (step ev ms)) = length (heap ms).
Proof.
  intros Hs. destruct ev as [verb id|verb id f|a]; cbn.
  - unfold send_message_begin. by rewrite Hs.
  - destruct f as [r|e]; [done|]. destruct e; cbn [send_message_then fst];
      try done.
    unfold remove_error_rpc_client.
    by rewrite remove_rpc_client_one_stopping.
  - destruct a; cbn.
    + unfold set_client_error. destruct (heap ms !! h); [|done].
      cbn. by rewrite length_insert.
    + by rewrite stop_effect.
    + by rewrite remove_rpc_client_stopping.
    + done.
Qed.

(** X9. Stopping is final: once [_stopping] is set, whatever sends are
    entered, futures resolve, clients are removed or [stop] is called
    again, the flag stays set, the tables never change and no client object
    is created. *)
Theorem stopping_is_final :
  forall (tr : list event) (ms : messaging_service),
    _stopping ms = true ->
    _stopping (run tr ms) = true
    /\ _clients (run tr ms) = _clients ms
    /\ length (heap (run tr ms)) = length (heap ms).
Proof.
  induction tr as [|ev tr IH]; intros ms Hs; [done|].
  change (run (ev :: tr) ms) with (run tr (step ev ms)).
  destruct (step_when_stopping ev ms Hs) as (Hs1 & Hc1 & Hh1).
  destruct (IH _ Hs1) as (Hs2 & Hc2 & Hh2).
  by rewrite Hs2, Hc2, Hh2, Hc1, Hh1.
Qed.

Lemma stopping_is_final_witness :
  let tr := [ev_send GOSSIP_DIGEST_ACK sample_peer;
             ev_complete GOSSIP_ECHO sample_peer (Failed closed_error);
             ev_env (env_remove_rpc_client sample_peer);
             ev_env env_stop] in
  _stopping stopped_service = true
  /\ _stopping (run tr stopped_service) = true
  /\ _clients (run tr stopped_service) = _clients stopped_service.
Proof.
  intros tr. split; [reflexivity|].
  destruct (stopping_is_final tr stopped_service eq_refl) as (H1 & H2 & _).
  split; [exact H1 | exact H2].
Defined.

(** X10. [stop] does not guard against a second call: called again, it
    waits for the [stop()] of the same listeners and clients as the first
    time, and every one of those calls is recorded twice. *)
Theorem stop_twice_stops_twice :
  forall ms : messaging_service,
    snd (stop (fst (stop ms))) = snd (stop ms)
    /\ stop_calls (fst (stop (fst (stop ms))))
       = rev (snd (stop ms)) ++ rev (snd (stop ms)) ++ stop_calls ms.
Proof.
  intros ms. rewrite (stop_effect (fst (stop ms))). rewrite !stop_effect.
  cbn [fst snd]. split; reflexivity.
Qed.

(** ** Listening *)

Lemma messaging_service_ext (ms1 ms2 : messaging_service) :
  _listen_address ms1 = _listen_address ms2 ->
  _port ms1 = _port ms2 ->
  _ssl_port ms1 = _ssl_port ms2 ->
  _encrypt_what ms1 = _encrypt_what ms2 ->
  _compress_what ms1 = _compress_what ms2 ->
  _should_listen_to_broadcast_address ms1
  = _should_listen_to_broadcast_address ms2 ->
  _credentials ms1 = _credentials ms2 ->
  _server ms1 = _server ms2 ->
  _server_tls ms1 = _server_tls ms2 ->
  _clients ms1 = _clients ms2 ->
  _dropped_messages ms1 = _dropped_messages ms2 ->
  _stopping ms1 = _stopping ms2 ->
  _preferred_ip_cache ms1 = _preferred_ip_cache ms2 ->
  heap ms1 = heap ms2 ->
  stop_calls ms1 = stop_calls ms2 ->
  ms1 = ms2.
Proof.
  destruct ms1, ms2. cbn. intros. by subst.
Qed.

Ltac split_ifs :=
  repeat match goal with
         | |- context [if ?b then _ else _] => destruct b
         end.

Lemma start_listen_config (bc : inet_address) (ms : messaging_service) :
  let ms' := start_listen bc ms in
  _listen_address ms' = _listen_address ms
  /\ _port ms' = _port ms
  /\ _ssl_port ms' = _ssl_port ms
  /\ _encrypt_what ms' = _encrypt_what ms
  /\ _compress_what ms' = _compress_what ms
  /\ _should_listen_to_broadcast_address ms'
     = _should_listen_to_broadcast_address ms
  /\ _credentials ms' = _credentials ms
  /\ _preferred_ip_cache ms' = _preferred_ip_cache ms.
Proof. unfold start_listen. split_ifs; repeat split. Qed.

Lemma start_listen_server (bc : inet_address) (ms : messaging_service) :
  let listen_to_bc :=
    _should_listen_to_broadcast_address ms
    && negb (Z.eqb (_listen_address ms) bc) in
  let so := negb (bool_decide (_compress_what ms = compress_none)) in
  let listen (a : inet_address) :=
    Some (mk_server so (mk_ipv4_addr a (_port ms)) None) in
  _server (start_listen bc ms)
  = if negb (slot_bound (_server ms) 0) then
      if listen_to_bc
      then <[1%nat := listen bc]> (<[0%nat := listen (_listen_address ms)]> (_server ms))
      else <[0%nat := listen (_listen_address ms)]> (_server ms)
    else _server ms.
Proof. unfold start_listen. split_ifs; reflexivity. Qed.

Lemma start_listen_server_tls (bc : inet_address) (ms : messaging_service) :
  let listen_to_bc :=
    _should_listen_to_broadcast_address ms
    && negb (Z.eqb (_listen_address ms) bc) in
  let so := negb (bool_decide (_compress_what ms = compress_none)) in
  let listen (a : inet_address) :=
    if bool_decide (_encrypt_what ms = encrypt_none) then None
    else Some (mk_server so (mk_ipv4_addr a (_ssl_port ms))
                         (Some (_credentials ms))) in
  _server_tls (start_listen bc ms)
  = if negb (slot_bound (_server_tls ms) 0) then
      if listen_to_bc
      then <[1%nat := listen bc]> (<[0%nat := listen (_listen_address ms)]> (_server_tls ms))
      else <[0%nat := listen (_listen_address ms)]> (_server_tls ms)
    else _server_tls ms.
Proof.
  unfold start_listen.
  destruct (negb (slot_bound (_server ms) 0)),
           (_should_listen_to_broadcast_address ms
            && negb (_listen_address ms =? bc));
    cbn [_listen_address _port _ssl_port _encrypt_what _compress_what
         _should_listen_to_broadcast_address _credentials _server_tls
         set_server];
    split_ifs; reflexivity.
Qed.

(** X11. [start_listen] leaves a listener array alone once its slot 0 is
    bound: when [_server[0]] holds a listener the plain array is left
    exactly as it is, and likewise the TLS array when [_server_tls[0]]
    holds one. So a bound listener is never replaced, whatever it listens
    on, and slot 1 is not filled later, not even when listening on the
    broadcast address has become due. Nothing but the two arrays ever
    changes, and a second call changes nothing at all. *)
Theorem start_listen_keeps_bound_listeners :
  forall (bc : inet_address) (ms : messaging_service),
    (slot_bound (_server ms) 0 = true ->
     _server (start_listen bc ms) = _server ms)
    /\ (slot_bound (_server_tls ms) 0 = true ->
        _server_tls (start_listen bc ms) = _server_tls ms)
    /\ (slot_bound (_server ms) 0 = true ->
        slot_bound (_server_tls ms) 0 = true ->
        start_listen bc ms = ms)
    /\ start_listen bc (start_listen bc ms) = start_listen bc ms.
Proof.
  intros bc ms.
  destruct (start_listen_config bc ms)
    as (G1 & G2 & G3 & G4 & G5 & G6 & G7 & G8).
  destruct (start_listen_keeps_clients bc ms) as (C1 & C2 & C3 & C4).
  assert (Hplain : slot_bound (_server ms) 0 = true ->
                   _server (start_listen bc ms) = _server ms).
  { intros Hb. rewrite start_listen_server. by rewrite Hb. }
  assert (Htls : slot_bound (_server_tls ms) 0 = true ->
                 _server_tls (start_listen bc ms) = _server_tls ms).
  { intros Hb. rewrite start_listen_server_tls. by rewrite Hb. }
  split; [exact Hplain|]. split; [exact Htls|]. split.
  - intros Hb1 Hb2. apply messaging_service_ext; try done.
    + by apply Hplain.
    + by apply Htls.
    + apply start_listen_keeps_dropped.
  - destruct (start_listen_config bc (start_listen bc ms))
      as (H1 & H2 & H3 & H4 & H5 & H6 & H7 & H8).
    destruct (start_listen_keeps_clients bc (start_listen bc ms))
      as (K1 & K2 & K3 & K4).
    apply messaging_service_ext; try done.
    + rewrite (start_listen_server bc (start_listen bc ms)).
      rewrite G1, G2, G5, G6. rewrite (start_listen_server bc ms).
      generalize (_server ms). intros l.
      destruct l as [|[a|] [|[b|] l]];
        destruct (_should_listen_to_broadcast_address ms),
                 (_listen_address ms =? bc); reflexivity.
    + rewrite (start_listen_server_tls bc (start_listen bc ms)).
      rewrite G1, G3, G4, G5, G6, G7. rewrite (start_listen_server_tls bc ms).
      generalize (_server_tls ms). intros l.
      destruct l as [|[a|] [|[b|] l]];
        destruct (_should_listen_to_broadcast_address ms),
                 (_listen_address ms =? bc),
                 (bool_decide (_encrypt_what ms = encrypt_none)); reflexivity.
    + apply start_listen_keeps_dropped.
Qed.

(** A service built while its broadcast address was its listen address has
    slot 1 empty; a later [start_listen], with the broadcast address now
    different, binds nothing more. *)
Lemma start_listen_keeps_bound_listeners_witness :
  slot_bound (_server late_broadcast_service) 0 = true
  /\ slot_bound (_server_tls late_broadcast_service) 0 = true
  /\ _should_listen_to_broadcast_address late_broadcast_service
     && negb (_listen_address late_broadcast_service =? 2) = true
  /\ _server late_broadcast_service !! 1%nat = Some None
  /\ _server (start_listen 2 late_broadcast_service)
     = _server late_broadcast_service
  /\ start_listen 2 late_broadcast_service = late_broadcast_service.
Proof.
  do 4 (split; [reflexivity|]).
  destruct (start_listen_keeps_bound_listeners 2 late_broadcast_service)
    as (H1 & _ & H3 & _).
  split; [exact (H1 eq_refl) | exact (H3 eq_refl eq_refl)].
Defined.

(** X12. What a freshly constructed service listens on. With [listen_now],
    slot 0 holds a plain listener on the listen address and [port]; slot 1
    holds one exactly when listening on the broadcast address is asked for
    and that address differs from the listen address; the TLS slots are
    filled under the same rule exactly when the encrypt policy is not
    [none], whether or not credentials were given, and their listeners use
    [ssl_port]; every listener has the compressor factory exactly when the
    compress policy is not [none]. Without [listen_now] no slot is bound.
    Either way the new service is not stopping, caches nothing and has
    counted nothing. *)
Theorem constructor_listeners :
  forall (bc ip_ : inet_address) (port : Z) (ew : encrypt_what)
         (cw : compress_what) (ssl_port : Z) (credentials : credentials_ptr)
         (sltba : bool),
    let ms := new_messaging_service bc ip_ port ew cw ssl_port credentials
                sltba true in
    let idle := new_messaging_service bc ip_ port ew cw ssl_port credentials
                  sltba false in
    let bcast := sltba && negb (ip_ =? bc) in
    let tls := negb (bool_decide (ew = encrypt_none)) in
    let so := negb (bool_decide (cw = compress_none)) in
    _server ms
    = [Some (mk_server so (mk_ipv4_addr ip_ port) None);
       if bcast then Some (mk_server so (mk_ipv4_addr bc port) None)
       else None]
    /\ _server_tls ms
       = [if tls
          then Some (mk_server so (mk_ipv4_addr ip_ ssl_port)
                               (Some credentials))
          else None;
          if tls && bcast
          then Some (mk_server so (mk_ipv4_addr bc ssl_port)
                               (Some credentials))
          else None]
    /\ _server idle = [None; None]
    /\ _server_tls idle = [None; None]
    /\ _stopping ms = false
    /\ _clients ms = [∅; ∅]
    /\ (forall v : messaging_verb, get_dropped_messages ms v = 0).
Proof.
  intros bc ip_ port ew cw ssl_port credentials sltba ms idle bcast tls so.
  subst ms idle. unfold new_messaging_service.
  split; [|split; [|split; [|split; [|split; [|split]]]]].
  - rewrite start_listen_server.
    cbn [_listen_address _port _compress_what _server
         _should_listen_to_broadcast_address].
    fold so bcast. by destruct bcast.
  - rewrite start_listen_server_tls.
    cbn [_listen_address _ssl_port _compress_what _encrypt_what _server_tls
         _should_listen_to_broadcast_address _credentials].
    fold so bcast. subst tls.
    by destruct bcast, (bool_decide (ew = encrypt_none)).
  - reflexivity.
  - reflexivity.
  - by rewrite (proj2 (proj2 (proj2 (start_listen_keeps_clients _ _)))).
  - by rewrite (proj1 (start_listen_keeps_clients _ _)).
  - intros v. unfold get_dropped_messages.
    by rewrite start_listen_keeps_dropped.
Qed.

(** ** More on the retry loop *)

Lemma send_message_timeout_total {R : Type} (verb : messaging_verb)
    (id : msg_addr) (timeout : Z) (w : wire R) (ms : messaging_service) :
  is_Some (send_message_timeout verb id timeout w ms).
Proof.
  unfold send_message_timeout, send_message_timeout_begin.
  destruct (_stopping ms) eqn:Hs; [eauto|].
  destruct (get_rpc_client_total verb id ms Hs) as [[ms' c] ->]. eauto.
Qed.

Lemma retry_loop_bounded {R : Type} (verb : messaging_verb) (id : msg_addr)
    (timeout nr_retry : Z) (script : list (attempt R)) :
  forall (retry : Z) (sent : nat) (ms : messaging_service),
    1 <= retry ->
    retry <= Z.of_nat (length script) ->
    exists (ms' : messaging_service) (f : future_result R) (sent' : nat),
      retry_loop verb id timeout nr_retry retry script sent ms
      = Some (ms', f, sent')
      /\ (sent < sent')%nat
      /\ Z.of_nat sent' <= Z.of_nat sent + retry.
Proof.
  induction script as [|a rest IH]; intros retry sent ms Hge Hle.
  - cbn in Hle. lia.
  - cbn [retry_loop].
    destruct (send_message_timeout_total verb id timeout (att_wire a) ms)
      as [[ms1 f] ->].
    assert (Hnow : forall (m : messaging_service) (g : future_result R),
               exists ms' f' sent',
                 Some (m, g, S sent) = Some (ms', f', sent')
                 /\ (sent < sent')%nat
                 /\ Z.of_nat sent' <= Z.of_nat sent + retry).
    { intros m g. exists m, g, (S sent). split; [done|]. split; lia. }
    destruct f as [r|e]; [apply Hnow|].
    destruct e; try apply Hnow.
    destruct (retry - 1 =? 0) eqn:Hz; [apply Hnow|].
    destruct (_stopping ms1); [apply Hnow|].
    destruct (negb (att_known_endpoint a)); [apply Hnow|].
    destruct (att_sleep a); [apply Hnow|].
    apply Z.eqb_neq in Hz. cbn [length] in Hle.
    destruct (IH (retry - 1) (S sent) (run_env (att_asleep a) ms1))
      as (ms' & f' & sent' & Heq & Hlt & Hbound); [lia|lia|].
    exists ms', f', sent'. split; [exact Heq|]. split; lia.
Qed.

(** X13. A retried send with a budget of at least 1 ends, whatever the
    transport, the gossiper and the rest of the program do: it makes at
    least one and at most [nr_retry] attempts. *)
Theorem retry_ends_within_budget :
  forall (R : Type) (verb : messaging_verb) (id : msg_addr)
         (timeout wait N : Z) (script : list (attempt R))
         (ms : messaging_service),
    1 <= N ->
    N <= Z.of_nat (length script) ->
    exists (ms' : messaging_service) (f : future_result R) (sent : nat),
      send_message_timeout_and_retry verb id timeout N wait script ms
      = Some (ms', f, sent)
      /\ (1 <= sent)%nat /\ Z.of_nat sent <= N.
Proof.
  intros R verb id timeout wait N script ms HN Hlen.
  destruct (retry_loop_bounded verb id timeout N script N 0%nat ms HN Hlen)
    as (ms' & f & sent & Heq & Hlt & Hb).
  exists ms', f, sent. split; [exact Heq|]. split; lia.
Qed.

Lemma retry_ends_within_budget_witness :
  1 <= 2
  /\ 2 <= Z.of_nat (length dead_peer_script)
  /\ exists (ms' : messaging_service) (f : future_result Z) (sent : nat),
       send_message_timeout_and_retry GOSSIP_ECHO sample_peer 600 2 30
         dead_peer_script (sample_service encrypt_none compress_none false)
       = Some (ms', f, sent)
       /\ (1 <= sent)%nat /\ Z.of_nat sent <= 2.
Proof.
  assert (H1 : 1 <= 2) by lia.
  assert (H2 : 2 <= Z.of_nat (length dead_peer_script)) by (cbn; lia).
  split; [exact H1|]. split; [exact H2|].
  exact (retry_ends_within_budget Z GOSSIP_ECHO sample_peer 600 30 2
           dead_peer_script (sample_service encrypt_none compress_none false)
           H1 H2).
Defined.

Lemma retry_loop_no_budget {R : Type} (verb : messaging_verb)
    (id : msg_addr) (timeout nr_retry : Z) (script : list (attempt R)) :
  forall (retry : Z) (sent : nat) (ms : messaging_service),
    retry <= 0 ->
    _stopping ms = false ->
    forallb retried script = true ->
    retry_loop verb id timeout nr_retry retry script sent ms = None.
Proof.
  induction script as [|a rest IH]; intros retry sent ms Hle Hs Hall;
    [done|].
  cbn [forallb] in Hall. apply andb_true_iff in Hall as [Ha Hall].
  destruct (retried_inv a Ha) as (Hrep & Hq1 & Hk & Hq2 & Hsl).
  destruct (send_message_timeout_running verb id timeout (att_wire a) ms Hs)
    as (ms1 & Hsend & Hs1).
  specialize (Hs1 Hq1). cbn [retry_loop]. rewrite Hsend, Hrep.
  replace (retry - 1 =? 0) with false by (symmetry; apply Z.eqb_neq; lia).
  rewrite Hs1, Hk, Hsl. cbn [negb].
  apply IH; [lia| |done]. by rewrite run_env_keeps_stopping.
Qed.

(** X14. A budget of 0 or less is no budget at all: the counter is
    decremented before it is compared with 0, so as long as every attempt
    fails with [closed_error] and is retried, the loop goes on and the
    call has no result. (The script is kept short enough for the counter
    to stay within the range of [int].) *)
Theorem retry_without_budget_does_not_end :
  forall (R : Type) (verb : messaging_verb) (id : msg_addr)
         (timeout wait N : Z) (script : list (attempt R))
         (ms : messaging_service),
    N <= 0 ->
    Z.of_nat (length script) <= N + 2 ^ 31 ->
    _stopping ms = false ->
    forallb retried script = true ->
    send_message_timeout_and_retry verb id timeout N wait script ms = None.
Proof.
  intros R verb id timeout wait N script ms HN _ Hs Hall.
  by apply retry_loop_no_budget.
Qed.

Lemma retry_without_budget_does_not_end_witness :
  0 <= 0
  /\ Z.of_nat (length (take 2 third_time_script)) <= 0 + 2 ^ 31
  /\ _stopping (sample_service encrypt_none compress_none false) = false
  /\ forallb retried (take 2 third_time_script) = true
  /\ send_message_timeout_and_retry GOSSIP_ECHO sample_peer 600 0 30
       (take 2 third_time_script)
       (sample_service encrypt_none compress_none false) = None.
Proof.
  assert (H1 : 0 <= 0) by lia.
  assert (H2 : Z.of_nat (length (take 2 third_time_script)) <= 0 + 2 ^ 31)
    by (cbn; lia).
  split; [exact H1|]. split; [exact H2|]. split; [reflexivity|].
  split; [reflexivity|].
  exact (retry_without_budget_does_not_end Z GOSSIP_ECHO sample_peer 600 30 0
           (take 2 third_time_script)
           (sample_service encrypt_none compress_none false)
           H1 H2 eq_refl eq_refl).
Defined.

Lemma run_env_action_stays_stopping (a : env_action)
    (ms : messaging_service) :
  _stopping ms = true -> _stopping (run_env_action a ms) = true.
Proof.
  intros Hs. destruct a; cbn.
  - by rewrite set_client_error_keeps_stopping.
  - by rewrite stop_effect.
  - by rewrite remove_rpc_client_keeps_stopping.
  - done.
Qed.

Lemma run_env_stays_stopping (l : list env_action) (ms : messaging_service) :
  _stopping ms = true -> _stopping (run_env l ms) = true.
Proof.
  revert ms. induction l as [|a l IH]; intros ms Hs; [done|].
  change (run_env (a :: l) ms) with (run_env l (run_env_action a ms)).
  apply IH. by apply run_env_action_stays_stopping.
Qed.

Lemma run_env_with_stop (l : list env_action) (ms : messaging_service) :
  no_stop l = false -> _stopping (run_env l ms) = true.
Proof.
  revert ms. induction l as [|a l IH]; intros ms H; [done|].
  cbn in H. apply andb_false_iff in H as [Ha|Hl].
  - change (run_env (a :: l) ms) with (run_env l (run_env_action a ms)).
    apply run_env_stays_stopping. destruct a; try discriminate.
    change (_stopping (fst (stop ms)) = true). by rewrite stop_effect.
  - change (run_env (a :: l) ms) with (run_env l (run_env_action a ms)).
    by apply IH.
Qed.

Lemma run_env_keeps_dropped (l : list env_action) (ms : messaging_service) :
  _dropped_messages (run_env l ms) = _dropped_messages ms.
Proof.
  revert ms. induction l as [|a l IH]; intros ms; [done|].
  cbn. unfold run_env in IH. rewrite IH.
  apply run_env_action_keeps_dropped.
Qed.

(** The outcome of one timed send on a running service: the reply of the
    transport comes back, the service is stopping afterwards exactly when
    [stop] ran while the request was in flight, and the counter of the verb
    has moved by one exactly when the reply is a failure. *)
Lemma send_message_timeout_outcome {R : Type} (verb : messaging_verb)
    (id : msg_addr) (timeout : Z) (w : wire R) (ms : messaging_service) :
  _stopping ms = false ->
  exists ms1 : messaging_service,
    send_message_timeout verb id timeout w ms = Some (ms1, reply w)
    /\ _stopping ms1 = negb (no_stop (in_flight w))
    /\ (forall v : messaging_verb,
          _dropped_messages ms1 v
          = if failed (reply w) && verb_eqb verb v
            then (_dropped_messages ms v + 1) mod 2 ^ 64
            else _dropped_messages ms v).
Proof.
  intros Hs. unfold send_message_timeout, send_message_timeout_begin.
  rewrite Hs.
  destruct (get_rpc_client_total verb id ms Hs) as [[ms0 c] Hget].
  rewrite Hget.
  pose proof (get_rpc_client_stopping _ _ _ _ _ Hget) as Hs0.
  pose proof (get_rpc_client_keeps_dropped _ _ _ _ _ Hget) as Hd0.
  set (ms0' := run_env (in_flight w) ms0).
  assert (Hd0' : _dropped_messages ms0' = _dropped_messages ms)
    by (subst ms0'; by rewrite run_env_keeps_dropped).
  exists (fst (send_message_timeout_then verb id (reply w) ms0')).
  split; [|split].
  - f_equal. destruct (reply w) as [r|e]; [done|]. by destruct e.
  - rewrite send_message_timeout_then_keeps_stopping. subst ms0'.
    destruct (no_stop (in_flight w)) eqn:Hq.
    + by rewrite run_env_keeps_stopping.
    + by rewrite run_env_with_stop.
  - intros v. destruct (reply w) as [r|e]; cbn [failed andb]; [by rewrite <- Hd0'|].
    assert (Hinc : _dropped_messages (increment_dropped_messages verb ms0') v
                   = if verb_eqb verb v
                     then (_dropped_messages ms v + 1) mod 2 ^ 64
                     else _dropped_messages ms v).
    { cbn. rewrite Hd0'. unfold verb_eqb.
      destruct (decide (v = verb)) as [->|Hne].
      - by rewrite bool_decide_eq_true_2.
      - rewrite !bool_decide_eq_false_2; [done| |done]. congruence. }
    destruct e; cbn [send_message_timeout_then fst]; try exact Hinc.
    unfold remove_error_rpc_client.
    destruct (remove_rpc_client_one_frame (get_rpc_client_idx verb) id true
                (increment_dropped_messages verb ms0')) as (_ & _ & Hd & _).
    rewrite Hd. exact Hinc.
Qed.

Lemma retry_loop_retried_prefix_counts {R : Type} (verb : messaging_verb)
    (id : msg_addr) (timeout nr_retry : Z) (pre rest : list (attempt R)) :
  forall (retry : Z) (sent : nat) (ms : messaging_service),
    _stopping ms = false ->
    forallb retried pre = true ->
    Z.of_nat (length pre) < retry ->
    0 <= _dropped_messages ms verb < 2 ^ 64 ->
    exists ms' : messaging_service,
      _stopping ms' = false
      /\ _dropped_messages ms' verb
         = (_dropped_messages ms verb + Z.of_nat (length pre)) mod 2 ^ 64
      /\ (forall v, v <> verb ->
                    _dropped_messages ms' v = _dropped_messages ms v)
      /\ retry_loop verb id timeout nr_retry retry (pre ++ rest) sent ms
         = retry_loop verb id timeout nr_retry
             (retry - Z.of_nat (length pre)) rest
             (sent + length pre) ms'.
Proof.
  induction pre as [|a pre IH]; intros retry sent ms Hs Hpre Hlt Hr.
  - exists ms. split; [done|]. split; [|split; [done|]].
    + cbn. rewrite Z.add_0_r. symmetry. by apply Z.mod_small.
    + cbn. by rewrite Z.sub_0_r, Nat.add_0_r.
  - cbn [forallb] in Hpre. apply andb_true_iff in Hpre as [Ha Hpre].
    destruct (retried_inv a Ha) as (Hrep & Hq1 & Hk & Hq2 & Hsl).
    destruct (send_message_timeout_outcome verb id timeout (att_wire a) ms Hs)
      as (ms1 & Hsend & Hs1 & Hd1).
    rewrite Hq1 in Hs1. cbn [negb] in Hs1. rewrite Hrep in Hd1.
    cbn [failed andb] in Hd1. cbn [length] in Hlt.
    set (ms2 := run_env (att_asleep a) ms1).
    assert (Hd2 : _dropped_messages ms2 = _dropped_messages ms1)
      by (subst ms2; apply run_env_keeps_dropped).
    assert (Hdv : _dropped_messages ms2 verb
                  = (_dropped_messages ms verb + 1) mod 2 ^ 64)
      by (rewrite Hd2, Hd1; by rewrite verb_eqb_refl).
    destruct (IH (retry - 1) (S sent) ms2) as (ms' & Hs' & Hc & Ho & Heq).
    + subst ms2. by rewrite run_env_keeps_stopping.
    + done.
    + lia.
    + rewrite Hdv. apply Z.mod_pos_bound. lia.
    + exists ms'. split; [done|]. split; [|split].
      * rewrite Hc, Hdv. rewrite Zplus_mod_idemp_l. f_equal.
        cbn [length]. lia.
      * intros v Hv. rewrite (Ho v Hv), Hd2, Hd1.
        unfold verb_eqb. rewrite bool_decide_eq_false_2; [done|congruence].
      * cbn [app retry_loop]. rewrite Hsend, Hrep.
        replace (retry - 1 =? 0) with false
          by (symmetry; apply Z.eqb_neq; lia).
        rewrite Hs1, Hk, Hsl. cbn [negb]. fold ms2. rewrite Heq.
        cbn [length]. rewrite Nat2Z.inj_succ. f_equal; lia.
Qed.

(** X15. Besides an exhausted budget, three things end a retried send
    after an attempt has failed with [closed_error]: the service was
    stopped while the request was in flight, or the gossiper no longer
    knows the peer (the call then fails with [closed_error]), or the sleep
    before the next attempt is aborted (the call then fails with the
    cause of the abort). A failure other than [closed_error] ends the call
    at once with that failure. In each case no further attempt is made. *)
Theorem retry_gives_up_early :
  forall (R : Type) (verb : messaging_verb) (id : msg_addr)
         (timeout wait N : Z) (pre : list (attempt R)) (a : attempt R)
         (rest : list (attempt R)) (ms : messaging_service),
    _stopping ms = false ->
    forallb retried pre = true ->
    Z.of_nat (length pre) < N ->
    let call :=
      send_message_timeout_and_retry verb id timeout N wait
        (pre ++ a :: rest) ms in
    (reply (att_wire a) = Failed closed_error ->
     no_stop (in_flight (att_wire a)) = false
     \/ att_known_endpoint a = false ->
     exists ms' : messaging_service,
       call = Some (ms', Failed closed_error, S (length pre)))
    /\ (forall e : rpc_error,
          reply (att_wire a) = Failed closed_error ->
          Z.of_nat (S (length pre)) < N ->
          no_stop (in_flight (att_wire a)) = true ->
          att_known_endpoint a = true ->
          att_sleep a = Some e ->
          exists ms' : messaging_service,
            call = Some (ms', Failed e, S (length pre)))
    /\ (forall e : rpc_error,
          reply (att_wire a) = Failed e ->
          e <> closed_error ->
          exists ms' : messaging_service,
            call = Some (ms', Failed e, S (length pre))).
Proof.
  intros R verb id timeout wait N pre a rest ms Hs Hpre Hlt call.
  destruct (retry_loop_retried_prefix verb id timeout N pre (a :: rest)
              N 0%nat ms Hs Hpre Hlt) as (ms0 & Hs0 & Heq).
  destruct (send_message_timeout_outcome verb id timeout (att_wire a) ms0 Hs0)
    as (ms1 & Hsend & Hs1 & _).
  subst call. unfold send_message_timeout_and_retry. rewrite Heq.
  cbn [retry_loop]. rewrite Hsend. cbn [Nat.add].
  split; [|split].
  - intros -> Hwhy. exists ms1.
    destruct (N - Z.of_nat (length pre) - 1 =? 0); [done|].
    destruct Hwhy as [Hq|Hk].
    + rewrite Hs1, Hq. reflexivity.
    + rewrite Hk. cbn [negb]. by destruct (_stopping ms1).
  - intros e -> Hbudget Hq Hk Hsl.
    exists (run_env (att_asleep a) ms1).
    replace (N - Z.of_nat (length pre) - 1 =? 0) with false
      by (symmetry; apply Z.eqb_neq; lia).
    rewrite Hs1, Hq, Hk, Hsl. reflexivity.
  - intros e -> Hne. exists ms1. by destruct e.
Qed.

Lemma retry_gives_up_early_witness :
  let ms := sample_service encrypt_none compress_none false in
  let a := mk_attempt (mk_wire [env_stop] (Failed closed_error)) true []
             (@None rpc_error) in
  _stopping ms = false
  /\ forallb retried (take 2 third_time_script) = true
  /\ Z.of_nat (length (take 2 third_time_script)) < 10
  /\ reply (att_wire a) = @Failed Z closed_error
  /\ no_stop (in_flight (att_wire a)) = false
  /\ exists ms' : messaging_service,
       send_message_timeout_and_retry GOSSIP_ECHO sample_peer 600 10 30
         (take 2 third_time_script ++ [a]) ms
       = Some (ms', Failed closed_error, 3%nat).
Proof.
  intros ms a.
  assert (H3 : Z.of_nat (length (take 2 third_time_script)) < 10)
    by (cbn; lia).
  split; [reflexivity|]. split; [reflexivity|]. split; [exact H3|].
  split; [reflexivity|]. split; [reflexivity|].
  exact (proj1 (retry_gives_up_early Z GOSSIP_ECHO sample_peer 600 30 10
                  (take 2 third_time_script) a [] ms eq_refl eq_refl H3)
           eq_refl (or_introl eq_refl)).
Defined.

(** X16. Every failed attempt of a retried send is counted as a dropped
    message, also when the call succeeds in the end: after [k] retried
    failures and a success, the counter of the verb has grown by [k]
    (modulo 2^64) and the counters of the other verbs are unchanged. *)
Theorem retried_failures_are_counted :
  forall (R : Type) (verb : messaging_verb) (id : msg_addr)
         (timeout wait N : Z) (pre : list (attempt R)) (a : attempt R)
         (rest : list (attempt R)) (r : R) (ms : messaging_service),
    _stopping ms = false ->
    forallb retried pre = true ->
    Z.of_nat (length pre) < N ->
    reply (att_wire a) = Ok r ->
    0 <= get_dropped_messages ms verb < 2 ^ 64 ->
    exists ms' : messaging_service,
      send_message_timeout_and_retry verb id timeout N wait
        (pre ++ a :: rest) ms
      = Some (ms', Ok r, S (length pre))
      /\ get_dropped_messages ms' verb
         = (get_dropped_messages ms verb + Z.of_nat (length pre)) mod 2 ^ 64
      /\ (forall v : messaging_verb,
            v <> verb ->
            get_dropped_messages ms' v = get_dropped_messages ms v).
Proof.
  intros R verb id timeout wait N pre a rest r ms Hs Hpre Hlt Hrep Hr.
  unfold get_dropped_messages in *.
  destruct (retry_loop_retried_prefix_counts verb id timeout N pre (a :: rest)
              N 0%nat ms Hs Hpre Hlt Hr) as (ms0 & Hs0 & Hc & Ho & Heq).
  destruct (send_message_timeout_outcome verb id timeout (att_wire a) ms0 Hs0)
    as (ms1 & Hsend & _ & Hd1).
  rewrite Hrep in Hsend, Hd1. cbn [failed andb] in Hd1.
  exists ms1. unfold send_message_timeout_and_retry. rewrite Heq.
  cbn [retry_loop]. rewrite Hsend. cbn [Nat.add].
  split; [done|]. split.
  - by rewrite Hd1.
  - intros v Hv. rewrite Hd1. by apply Ho.
Qed.

Lemma retried_failures_are_counted_witness :
  let ms := sample_service encrypt_none compress_none false in
  _stopping ms = false
  /\ forallb retried (take 2 third_time_script) = true
  /\ Z.of_nat (length (take 2 third_time_script)) < 3
  /\ 0 <= get_dropped_messages ms GOSSIP_ECHO < 2 ^ 64
  /\ exists ms' : messaging_service,
       send_message_timeout_and_retry GOSSIP_ECHO sample_peer 600 3 30
         third_time_script ms
       = Some (ms', Ok 7, 3%nat)
       /\ get_dropped_messages ms' GOSSIP_ECHO = 2.
Proof.
  intros ms.
  assert (H3 : Z.of_nat (length (take 2 third_time_script)) < 3)
    by (cbn; lia).
  assert (H5 : 0 <= get_dropped_messages ms GOSSIP_ECHO < 2 ^ 64)
    by (cbn; lia).
  split; [reflexivity|]. split; [reflexivity|]. split; [exact H3|].
  split; [exact H5|].
  destruct (retried_failures_are_counted Z GOSSIP_ECHO sample_peer 600 30 3
              (take 2 third_time_script)
              (mk_attempt (mk_wire [] (Ok 7)) true [] None) [] 7 ms
              eq_refl eq_refl H3 eq_refl H5) as (ms' & Hcall & Hcount & _).
  exists ms'. split; [exact Hcall|]. rewrite Hcount. reflexivity.
Defined.

(** ** The serializer thunks *)

(** X17. The pointer wrappers are invisible on the wire: a [foreign_ptr<T>]
    and a [lw_shared_ptr<T>] are written exactly as the [T] they hold, and
    when the payload serializer reads back what it wrote, so do the
    wrappers, also across each other (a payload written from one wrapper
    can be read into the other). *)
Theorem pointer_wrappers_round_trip :
  forall (T : Type) (s : serializer T) (out : list Z) (x : T),
    (forall y : T, read s (write s [] y) = Some (y, [])) ->
    write_foreign s out (make_foreign x) = write s out x
    /\ write_lw_shared s out (make_lw_shared x) = write s out x
    /\ read_foreign s (write_foreign s [] (make_foreign x))
       = Some (make_foreign x, [])
    /\ read_lw_shared s (write_lw_shared s [] (make_lw_shared x))
       = Some (make_lw_shared x, [])
    /\ read_lw_shared s (write_foreign s [] (make_foreign x))
       = Some (make_lw_shared x, [])
    /\ read_foreign s (write_lw_shared s [] (make_lw_shared x))
       = Some (make_foreign x, []).
Proof.
  intros T s out x Hrt.
  unfold write_foreign, write_lw_shared, read_foreign, read_lw_shared.
  cbn [foreign_get lw_shared_get]. rewrite !Hrt. repeat split.
Qed.

Lemma pointer_wrappers_round_trip_witness :
  (forall y : Z, read cell_serializer (write cell_serializer [] y)
                 = Some (y, []))
  /\ read_lw_shared cell_serializer
       (write_foreign cell_serializer [] (make_foreign 42))
     = Some (make_lw_shared 42, []).
Proof.
  assert (Hrt : forall y : Z,
             read cell_serializer (write cell_serializer [] y) = Some (y, []))
    by (intros y; reflexivity).
  split; [exact Hrt|].
  exact (proj1 (proj2 (proj2 (proj2 (proj2
           (pointer_wrappers_round_trip Z cell_serializer [] 42 Hrt)))))).
Defined.

(** ** Iterating over the clients *)

Lemma foldl_snoc_map {A B : Type} (g : A -> B) (l : list A) (acc : list B) :
  foldl (fun acc i => acc ++ [g i]) acc l = acc ++ map g l.
Proof.
  revert acc. induction l as [|a l IH]; intros acc; cbn.
  - by rewrite app_nil_r.
  - rewrite IH. by rewrite <- app_assoc.
Qed.

Lemma visited_clients_eq (ms : messaging_service) :
  visited_clients ms
  = concat (map (fun m : clients_map => map snd (map_to_list m))
                (_clients ms)).
Proof.
  unfold visited_clients, foreach_client.
  assert (H : forall (l : list clients_map) (acc : list (msg_addr * shard_info)),
             foldl (fun acc (m : clients_map) =>
                      foldl (fun acc i => acc ++ [(fst (snd i), snd (snd i))])
                            acc (map_to_list m)) acc l
             = acc ++ concat (map (fun m : clients_map =>
                                     map snd (map_to_list m)) l)).
  { induction l as [|m l IH]; intros acc; cbn.
    - by rewrite app_nil_r.
    - rewrite IH.
      rewrite (foldl_snoc_map (fun i : Z * (msg_addr * shard_info) =>
                                 (fst (snd i), snd (snd i)))).
      rewrite <- app_assoc. do 2 f_equal.
      apply map_ext. by intros [k [a b]]. }
  by rewrite H.
Qed.

(** X18. [foreach_client] runs its callback on the entries of every table
    and on nothing else: an identity and its client are visited exactly
    when some table holds them, the number of visits is the total number
    of entries, and the callback's effects are those of running it over
    the visited entries in order. *)
Theorem foreach_client_visits_the_cache :
  forall (ms : messaging_service),
    (forall (id : msg_addr) (info : shard_info),
        (id, info) ∈ visited_clients ms
        <-> exists (idx : nat) (k : Z),
              clients_at ms idx !! k = Some (id, info))
    /\ length (visited_clients ms)
       = foldr (fun (m : clients_map) n => (size m + n)%nat) 0%nat
               (_clients ms)
    /\ (forall (A : Type) (f : msg_addr -> shard_info -> A -> A) (acc : A),
          foreach_client f ms acc
          = foldl (fun acc p => f (fst p) (snd p) acc) acc
                  (visited_clients ms)).
Proof.
  intros ms. rewrite visited_clients_eq. split; [|split].
  - intros id info. rewrite list_elem_of_In, in_concat. split.
    + intros (l & Hl & Hin). apply in_map_iff in Hl as (m & <- & Hm).
      apply in_map_iff in Hin as ([k it] & Heq & Hin). cbn in Heq. subst it.
      apply list_elem_of_In, elem_of_map_to_list in Hin.
      apply list_elem_of_In, list_elem_of_lookup in Hm as (idx & Hidx).
      exists idx, k. unfold clients_at. by rewrite Hidx.
    + intros (idx & k & Hit).
      destruct (clients_at_lookup_Some _ _ _ _ Hit) as (m & Hm & Hk).
      exists (map snd (map_to_list m)). split.
      * apply in_map_iff. exists m. split; [done|].
        apply list_elem_of_In, list_elem_of_lookup. by exists idx.
      * apply in_map_iff. exists (k, (id, info)). split; [done|].
        by apply list_elem_of_In, elem_of_map_to_list.
  - induction (_clients ms) as [|m l IH]; cbn; [done|].
    rewrite length_app, IH. f_equal.
    rewrite length_map. apply length_map_to_list.
  - intros A f acc. unfold foreach_client.
    generalize (_clients ms). intros l. revert acc.
    induction l as [|m l IH]; intros acc; cbn; [done|].
    rewrite foldl_app, IH. f_equal.
    generalize (map_to_list m). intros l'. revert acc.
    induction l' as [|[k [a b]] l' IH']; intros acc; cbn; [done|].
    by rewrite IH'.
Qed.

(** ** The gossip wrappers *)

Lemma send_message_delivered {R : Type} (verb : messaging_verb)
    (id : msg_addr) (timeout : Z) (w : wire R) (r : R)
    (ms : messaging_service) :
  _stopping ms = false ->
  in_flight w = [] ->
  reply w = Ok r ->
  exists (ms' : messaging_service) (c : nat),
    get_rpc_client verb id ms = Some (ms', c)
    /\ send_message verb id w ms = Some (ms', Ok r)
    /\ send_message_timeout verb id timeout w ms = Some (ms', Ok r).
Proof.
  intros Hs Hfl Hrep.
  destruct (get_rpc_client_total verb id ms Hs) as [[ms' c] Hget].
  exists ms', c. split; [exact Hget|].
  unfold send_message, send_message_begin, send_message_timeout,
    send_message_timeout_begin.
  by rewrite Hs, Hget, Hfl, Hrep.
Qed.

Lemma get_rpc_client_other_table (verb : messaging_verb) (id : msg_addr)
    (ms ms' : messaging_service) (c : nat) (idx' : nat) :
  get_rpc_client verb id ms = Some (ms', c) ->
  idx' <> get_rpc_client_idx verb ->
  clients_at ms' idx' = clients_at ms idx'.
Proof.
  intros Hget Hne. apply map_eq. intros k.
  destruct (get_rpc_client_effect _ _ _ _ _ Hget)
    as [[-> _]|(_ & _ & _ & Htab & _)]; [done|].
  rewrite Htab. rewrite decide_False; [done|]. by intros [? _].
Qed.

(** X19. Which connection each gossip message travels on. On a running
    service, a gossip syn, ack2, shutdown or echo that is delivered leaves
    a client for the peer in table 1 and does not touch table 0; a gossip
    ack leaves its client in table 0 and does not touch table 1. *)
Theorem gossip_sends_use_their_table :
  forall (id : msg_addr) (from : inet_address) (w : wire unit)
         (ms : messaging_service),
    length (_clients ms) = 2%nat ->
    _stopping ms = false ->
    in_flight w = [] ->
    reply w = Ok tt ->
    let lands (sent : option (messaging_service * future_result unit))
              (idx other : nat) :=
      exists ms' : messaging_service,
        sent = Some (ms', Ok tt)
        /\ is_Some (clients_at ms' idx !! addr id)
        /\ clients_at ms' other = clients_at ms other in
    lands (send_gossip_digest_syn id w ms) 1%nat 0%nat
    /\ lands (send_gossip_digest_ack2 id w ms) 1%nat 0%nat
    /\ lands (send_gossip_shutdown id from w ms) 1%nat 0%nat
    /\ lands (send_gossip_echo id w ms) 1%nat 0%nat
    /\ lands (send_gossip_digest_ack id w ms) 0%nat 1%nat.
Proof.
  intros id from w ms Hlen Hs Hfl Hrep lands.
  assert (H : forall (verb : messaging_verb) (other : nat),
             other <> get_rpc_client_idx verb ->
             exists ms' : messaging_service,
               send_message verb id w ms = Some (ms', Ok tt)
               /\ send_message_timeout verb id 3000 w ms = Some (ms', Ok tt)
               /\ is_Some (clients_at ms' (get_rpc_client_idx verb) !! addr id)
               /\ clients_at ms' other = clients_at ms other).
  { intros verb other Hne.
    destruct (send_message_delivered verb id 3000 w tt ms Hs Hfl Hrep)
      as (ms' & c & Hget & Hsend & Hsendt).
    exists ms'. split; [exact Hsend|]. split; [exact Hsendt|].
    destruct (get_rpc_client_cached _ _ _ _ _ Hlen Hget)
      as (_ & (it & Hit & _) & _).
    split; [by exists it|].
    by eapply get_rpc_client_other_table. }
  subst lands. cbn beta.
  unfold send_gossip_digest_syn, send_gossip_digest_ack2,
    send_gossip_shutdown, send_gossip_echo, send_gossip_digest_ack,
    send_message_oneway.
  split; [|split; [|split; [|split]]].
  - destruct (H GOSSIP_DIGEST_SYN 0%nat) as (ms' & H1 & _ & H3 & H4);
      [discriminate|]. by exists ms'.
  - destruct (H GOSSIP_DIGEST_ACK2 0%nat) as (ms' & H1 & _ & H3 & H4);
      [discriminate|]. by exists ms'.
  - destruct (H GOSSIP_SHUTDOWN 0%nat) as (ms' & H1 & _ & H3 & H4);
      [discriminate|]. by exists ms'.
  - destruct (H GOSSIP_ECHO 0%nat) as (ms' & _ & H2 & H3 & H4);
      [discriminate|]. by exists ms'.
  - destruct (H GOSSIP_DIGEST_ACK 1%nat) as (ms' & H1 & _ & H3 & H4);
      [discriminate|]. by exists ms'.
Qed.

Lemma gossip_sends_use_their_table_witness :
  let ms := sample_service encrypt_none compress_none false in
  let w := mk_wire [] (Ok tt) in
  length (_clients ms) = 2%nat
  /\ _stopping ms = false
  /\ in_flight w = []
  /\ reply w = Ok tt
  /\ (exists ms' : messaging_service,
         send_gossip_digest_ack sample_peer w ms = Some (ms', Ok tt)
         /\ is_Some (clients_at ms' 0 !! addr sample_peer)
         /\ clients_at ms' 1 = clients_at ms 1).
Proof.
  intros ms w. split; [reflexivity|]. split; [reflexivity|].
  split; [reflexivity|]. split; [reflexivity|].
  exact (proj2 (proj2 (proj2 (proj2
           (gossip_sends_use_their_table sample_peer 1 w ms
              eq_refl eq_refl eq_refl eq_refl))))).
Defined.

(** ** A whole send *)

(** X20. On a running service a send always goes out, and the future a
    caller gets resolves exactly as the transport's reply does, value or
    failure. Afterwards the service is stopping exactly when [stop] ran
    while the request was in flight, and the counter of the verb has moved
    by one exactly when the reply is a failure. [send_message_timeout]
    does the same as [send_message]. *)
Theorem send_returns_the_reply :
  forall (R : Type) (verb : messaging_verb) (id : msg_addr) (timeout : Z)
         (w : wire R) (ms : messaging_service),
    _stopping ms = false ->
    send_message_timeout verb id timeout w ms = send_message verb id w ms
    /\ exists ms1 : messaging_service,
         send_message verb id w ms = Some (ms1, reply w)
         /\ _stopping ms1 = negb (no_stop (in_flight w))
         /\ (forall v : messaging_verb,
               get_dropped_messages ms1 v
               = if failed (reply w) && verb_eqb verb v
                 then (get_dropped_messages ms v + 1) mod 2 ^ 64
                 else get_dropped_messages ms v).
Proof.
  intros R verb id timeout w ms Hs.
  assert (Heq : send_message_timeout verb id timeout w ms
                = send_message verb id w ms).
  { unfold send_message_timeout, send_message, send_message_timeout_begin,
      send_message_begin.
    destruct (_stopping ms); [done|].
    by destruct (get_rpc_client verb id ms) as [[ms' c]|]. }
  split; [exact Heq|]. rewrite <- Heq.
  destruct (send_message_timeout_outcome verb id timeout w ms Hs)
    as (ms1 & Hsend & Hs1 & Hd).
  exists ms1. split; [exact Hsend|]. split; [exact Hs1|exact Hd].
Qed.

Lemma send_returns_the_reply_witness :
  let w := mk_wire [env_stop] (@Failed unit timeout_error) in
  _stopping connected_service = false
  /\ exists ms1 : messaging_service,
       send_message GOSSIP_ECHO sample_peer w connected_service
       = Some (ms1, Failed timeout_error)
       /\ _stopping ms1 = true
       /\ get_dropped_messages ms1 GOSSIP_ECHO = 1.
Proof.
  intros w. split; [reflexivity|].
  destruct (send_returns_the_reply unit GOSSIP_ECHO sample_peer 3000 w
              connected_service eq_refl) as (_ & ms1 & H1 & H2 & H3).
  exists ms1. split; [exact H1|]. split; [exact H2|].
  rewrite H3. reflexivity.
Defined.

(** X21. A cached client that is in error is never handed out: on a
    running service [get_rpc_client] calls [stop()] on it, allocates a new
    client that is not in error, caches the new one in its place and
    answers it. On a reachable service the new client is another object
    than the old one. *)
Theorem errored_client_is_replaced :
  forall (verb : messaging_verb) (id : msg_addr) (ms : messaging_service)
         (it : msg_addr * shard_info),
    reachable ms ->
    _stopping ms = false ->
    clients_at ms (get_rpc_client_idx verb) !! addr id = Some it ->
    client_error ms (rpc_client (snd it)) = true ->
    exists ms' : messaging_service,
      get_rpc_client verb id ms = Some (ms', length (heap ms))
      /\ length (heap ms) <> rpc_client (snd it)
      /\ clients_at ms' (get_rpc_client_idx verb) !! addr id
         = Some (id, mk_shard_info (length (heap ms)))
      /\ client_error ms' (length (heap ms)) = false
      /\ stop_calls ms' = client_stop (rpc_client (snd it)) :: stop_calls ms.
Proof.
  intros verb id ms it Hr Hs Hit He.
  destruct (reachable_cache_ok _ Hr) as (I1 & _).
  destruct (I1 _ _ _ Hit) as [Hlt _].
  assert (Hch : cached_healthy verb id ms = false).
  { unfold cached_healthy. unfold inet_address in *. by rewrite Hit, He. }
  destruct (get_rpc_client_creates verb id ms Hs Hch) as (ms' & Hget & _).
  exists ms'. split; [exact Hget|]. split; [lia|].
  destruct (get_rpc_client_cached _ _ _ _ _ (reachable_length _ Hr) Hget)
    as (_ & _ & Herr).
  destruct (get_rpc_client_effect _ _ _ _ _ Hget)
    as [[Hsame _]|(_ & _ & Hheap & Htab & _)].
  { exfalso. apply (f_equal (fun m => length (heap m))) in Hsame.
    destruct (get_rpc_client_creates verb id ms Hs Hch)
      as (ms2 & Hget2 & Hheap2 & _).
    rewrite Hget in Hget2. injection Hget2 as <-.
    rewrite Hheap2, length_app in Hsame. cbn in Hsame. lia. }
  split; [|split; [exact Herr|]].
  - rewrite Htab, decide_True by done.
    by rewrite decide_True
      by (pose proof (get_rpc_client_idx_lt_2 verb);
          pose proof (reachable_length _ Hr); lia).
  - unfold get_rpc_client in Hget. unfold inet_address in *.
    rewrite Hs, Hit, He in Hget. cbn [negb] in Hget.
    destruct (remove_rpc_client_one_evicts (get_rpc_client_idx verb) id true
                ms it Hs Hit) as (Hnone & Hstop); [by rewrite He|].
    unfold remove_error_rpc_client in Hget.
    set (ms1 := remove_rpc_client_one (get_rpc_client_idx verb) id true ms)
      in *.
    change (clients_at (set_heap (heap ms1 ++ [make_client ms1 id]) ms1)
              (get_rpc_client_idx verb))
      with (clients_at ms1 (get_rpc_client_idx verb)) in Hget.
    unfold inet_address in *.
    rewrite Hnone in Hget. injection Hget as <- _. exact Hstop.
Qed.

Lemma errored_client_is_replaced_witness :
  reachable broken_service
  /\ _stopping broken_service = false
  /\ clients_at broken_service (get_rpc_client_idx GOSSIP_ECHO)
       !! addr sample_peer = Some (sample_peer, mk_shard_info 0)
  /\ client_error broken_service 0 = true
  /\ exists ms' : messaging_service,
       get_rpc_client GOSSIP_ECHO sample_peer broken_service
       = Some (ms', 1%nat)
       /\ stop_calls ms' = [client_stop 0].
Proof.
  assert (Hr : reachable broken_service).
  { apply (reach_step (ev_env (env_transport_error 0))).
    apply (reach_step (ev_send GOSSIP_ECHO sample_peer)).
    apply reach_new. }
  split; [exact Hr|]. split; [reflexivity|]. split; [reflexivity|].
  split; [reflexivity|].
  destruct (errored_client_is_replaced GOSSIP_ECHO sample_peer broken_service
              (sample_peer, mk_shard_info 0) Hr eq_refl eq_refl eq_refl)
    as (ms' & H1 & _ & _ & _ & H5).
  exists ms'. split; [exact H1 | exact H5].
Defined.

(** ** Failure handling of a send *)

(** A send is in flight when the transport breaks its connection and
    [stop()] is called; its future then fails with [closed_error]. The
    client stays cached: the removal does nothing on a stopping service. *)
Lemma closed_error_while_stopping_evicts_nothing :
  ~ eviction_claim GOSSIP_ECHO sample_peer closed_during_stop
      connected_service.
Proof.
  intros H. destruct (H eq_refl) as (ms1 & Hsend & Hnone).
  vm_compute in Hsend. injection Hsend as <-.
  vm_compute in Hnone. discriminate.
Qed.

(** C5, as the code has it. Take a send, by [send_message] or
    [send_message_timeout], that went out on a client, and the state [ms_f]
    the service is in when its future resolves. When the future fails with
    [closed_error], [remove_error_rpc_client verb id] is called and the
    same error is handed on; the call erases the peer's entry of
    [_clients[idx]], calls [stop()] on its client, and the next
    [get_rpc_client] builds a fresh client, when the service is not stopping
    and the cached client is in error; otherwise (the service is stopping,
    the cached client is not in error, or there is none) no table changes
    and nothing is stopped. Any other failure is handed on as it came and a
    success likewise, with every table, the client objects and the stop log
    untouched. *)
Theorem closed_error_evicts_a_broken_client :
  forall (R : Type) (verb : messaging_verb) (id : msg_addr) (timeout : Z)
         (w : wire R) (ms ms_d : messaging_service) (c : nat),
    get_rpc_client verb id ms = Some (ms_d, c) ->
    let idx := get_rpc_client_idx verb in
    let ms_f := run_env (in_flight w) ms_d in
    exists ms1 : messaging_service,
      send_message verb id w ms = Some (ms1, reply w)
      /\ send_message_timeout verb id timeout w ms = Some (ms1, reply w)
      /\ heap ms1 = heap ms_f
      /\ (reply w = Failed closed_error ->
          ms1 = remove_error_rpc_client verb id
                  (increment_dropped_messages verb ms_f)
          /\ if closed_error_evicts verb id ms_f
             then clients_at ms1 idx !! addr id = None
                  /\ (exists it : msg_addr * shard_info,
                         clients_at ms_f idx !! addr id = Some it
                         /\ stop_calls ms1
                            = client_stop (rpc_client (snd it))
                              :: stop_calls ms_f)
                  /\ (exists ms2 : messaging_service,
                         get_rpc_client verb id ms1
                         = Some (ms2, length (heap ms_f)))
             else _clients ms1 = _clients ms_f
                  /\ stop_calls ms1 = stop_calls ms_f)
      /\ (forall e : rpc_error,
            reply w = Failed e -> e <> closed_error ->
            _clients ms1 = _clients ms_f
            /\ stop_calls ms1 = stop_calls ms_f)
      /\ (forall r : R, reply w = Ok r -> ms1 = ms_f).
Proof.
  intros R verb id timeout w ms ms_d c Hget idx ms_f.
  assert (Hs : _stopping ms = false).
  { unfold get_rpc_client in Hget. by destruct (_stopping ms). }
  exists (fst (send_message_then verb id (reply w) ms_f)).
  split; [|split; [|split; [|split; [|split]]]].
  - unfold send_message, send_message_begin. rewrite Hs, Hget.
    fold ms_f. f_equal. destruct (reply w) as [r|e]; [done|]. by destruct e.
  - unfold send_message_timeout, send_message_timeout_begin.
    rewrite Hs, Hget. fold ms_f. f_equal.
    destruct (reply w) as [r|e]; [done|]. by destruct e.
  - destruct (reply w) as [r|e]; [done|].
    destruct e; cbn [send_message_then fst]; try done.
    unfold remove_error_rpc_client.
    by destruct (remove_rpc_client_one_frame idx id true
                   (increment_dropped_messages verb ms_f)) as (Hh & _).
  - intros ->. cbn [send_message_then fst]. split; [reflexivity|].
    set (ms_i := increment_dropped_messages verb ms_f).
    unfold remove_error_rpc_client. fold idx.
    destruct (remove_rpc_client_one_effect idx id true ms_i)
      as [Hsame|(it & Hsi & Hit & Hd & Htab & Hstop & Hh & Hs' & _)].
    + (* nothing was removed *)
      rewrite Hsame.
      destruct (closed_error_evicts verb id ms_f) eqn:Hev; [|done].
      exfalso. unfold closed_error_evicts in Hev. fold idx in Hev.
      apply andb_true_iff in Hev as [Hrun Herr].
      apply negb_true_iff in Hrun.
      destruct (clients_at ms_f idx !! addr id) as [it|] eqn:Hit;
        [|discriminate].
      unfold remove_rpc_client_one in Hsame.
      change (_stopping ms_i) with (_stopping ms_f) in Hsame.
      change (clients_at ms_i idx) with (clients_at ms_f idx) in Hsame.
      change (client_error ms_i) with (client_error ms_f) in Hsame.
      unfold inet_address in *.
      rewrite Hrun, Hit, Herr in Hsame. cbn in Hsame.
      apply (f_equal stop_calls) in Hsame. cbn in Hsame.
      apply (f_equal length) in Hsame. cbn in Hsame. lia.
    + (* the entry was removed *)
      cbn [negb orb] in Hd.
      assert (Hev : closed_error_evicts verb id ms_f = true).
      { unfold closed_error_evicts. fold idx.
        change (_stopping ms_f) with (_stopping ms_i).
        change (clients_at ms_f idx) with (clients_at ms_i idx).
        change (client_error ms_f) with (client_error ms_i).
        unfold inet_address in *. by rewrite Hsi, Hit, Hd. }
      rewrite Hev.
      set (ms1 := remove_rpc_client_one idx id true ms_i) in *.
      assert (Hnone : clients_at ms1 idx !! addr id = None).
      { rewrite Htab. by rewrite decide_True. }
      split; [exact Hnone|]. split; [by exists it|].
      destruct (get_rpc_client_creates verb id ms1 Hs')
        as (ms2 & Hget2 & _).
      { unfold cached_healthy. fold idx. unfold inet_address in *.
        by rewrite Hnone. }
      exists ms2. by rewrite Hh in Hget2.
  - intros e -> Hne. by destruct e.
  - intros r ->. reflexivity.
Qed.

(** The transport breaks the one connection of the sample service while a
    request is in flight, and the request fails with [closed_error]: the
    entry is gone afterwards. *)
Lemma closed_error_evicts_a_broken_client_witness :
  get_rpc_client GOSSIP_ECHO sample_peer connected_service
  = Some (connected_service, 0%nat)
  /\ reply closed_by_transport = Failed closed_error
  /\ closed_error_evicts GOSSIP_ECHO sample_peer
       (run_env (in_flight closed_by_transport) connected_service) = true
  /\ exists ms1 : messaging_service,
       send_message GOSSIP_ECHO sample_peer closed_by_transport
         connected_service
       = Some (ms1, Failed closed_error)
       /\ clients_at ms1 1 !! 3 = None.
Proof.
  assert (Hget : get_rpc_client GOSSIP_ECHO sample_peer connected_service
                 = Some (connected_service, 0%nat)) by reflexivity.
  assert (Hev : closed_error_evicts GOSSIP_ECHO sample_peer
                  (run_env (in_flight closed_by_transport) connected_service)
                = true) by (vm_compute; reflexivity).
  split; [exact Hget|]. split; [reflexivity|]. split; [exact Hev|].
  destruct (closed_error_evicts_a_broken_client unit GOSSIP_ECHO sample_peer
              3000 closed_by_transport connected_service connected_service 0
              Hget) as (ms1 & Hsend & _ & _ & Hclosed & _).
  exists ms1. split; [exact Hsend|].
  destruct (Hclosed eq_refl) as (_ & Hif).
  rewrite Hev in Hif. exact (proj1 Hif).
Defined.
